(** * GPS/GSM tracker sketches: a shallow embedding and its properties

    The repository holds two Arduino sketches.  [src/unnamed/part_000] is the
    balloon-payload tracker with deferred modem bring-up and two interval
    timers (module [Part000]); [src/tracker.ino] is the earlier variant that
    brings the modem up in [setup()] and polls it on every pass of [loop()]
    (module [Tracker]).

    The sketches are embedded as programs of a small state monad.  The state
    holds the sketch's global variables, the fields of the GPS driver object
    the sketch reads, and a log of every interaction with the outside world.
    Whatever the outside world answers (the millisecond clock, the GPS driver,
    the FONA modem driver) is read from an oracle indexed by the number of
    interactions made so far. *)

From Stdlib Require Import ZArith List String Ascii Bool Lia Arith.
Import ListNotations.
Local Open Scope Z_scope.
Local Open Scope string_scope.

(** ** Machine arithmetic of the AVR target *)

(** [uint32_t]: the type of [millis()] and of the timers. *)
Definition wrap32 (z : Z) : Z := z mod 2 ^ 32.

(** Unsigned 32-bit subtraction, as in [millis() - gpsTimer]. *)
Definition sub32 (a b : Z) : Z := wrap32 (a - b).

(** [int8_t]: the type of [startSMS] and [smsnum]. *)
Definition wrap_int8 (z : Z) : Z := (z + 128) mod 256 - 128.

(** [uint8_t]: the type of the index argument of [readSMS]. *)
Definition wrap_uint8 (z : Z) : Z := z mod 256.

(** ** Strings *)

(** C [tolower] in the "C" locale. *)
Definition tolower (c : ascii) : ascii :=
  let n := nat_of_ascii c in
  if (Nat.leb 65 n && Nat.leb n 90)%bool then ascii_of_nat (n + 32) else c.

(** Arduino [String::toLowerCase]. *)
Fixpoint toLowerCase (s : string) : string :=
  match s with
  | EmptyString => EmptyString
  | String c r => String (tolower c) (toLowerCase r)
  end.

Definition strlen (s : string) : Z := Z.of_nat (String.length s).

(** The C string held in a character array: the characters before the first
    NUL.  This is what [String analyze = replybuffer;] reads. *)
Fixpoint c_str (s : string) : string :=
  match s with
  | EmptyString => EmptyString
  | String c r => if Ascii.eqb c zero then EmptyString else String c (c_str r)
  end.

(** ** Floats and their formatting

    The sketches only move [float]s from the GPS driver into [dtostrf] or
    [String(float, digits)]; both are taken as an interface. *)
Class FloatFormat : Type := {
  float : Type;
  fzero : float;
  (** avr-libc [dtostrf(val, width, prec, buf)] *)
  dtostrf : float -> Z -> Z -> string;
  (** Arduino [String(float, decimalPlaces)] *)
  String_of_float : float -> Z -> string
}.

(** ** Pins and constants shared by both sketches *)
Definition GPS_RX : Z := 2.
Definition GPS_TX : Z := 3.
Definition FONA_RX : Z := 4.
Definition FONA_TX : Z := 5.
Definition FONA_RST : Z := 6.
Definition BUZZ_PIN : Z := 7.
Definition GPSECHO : bool := true.

(** [char sendto[21] = "+###########";] *)
Definition sendto : string := "+###########".

Section Machine.
Context `{FloatFormat}.

(** ** The GPS driver object, as far as the sketches read it *)
(** [gps_fix] is the driver's [fix] field ([fix] is a keyword here). *)
Record GPSData : Type := mkGPS {
  gps_fix : bool;
  latitudeDegrees : float;
  longitudeDegrees : float;
  altitude : float
}.

(** Fields after the driver's constructor. *)
Definition GPS_init : GPSData := mkGPS false fzero fzero fzero.

(** ** The outside world

    [clock k] is the true time in milliseconds since boot at the [k]-th
    interaction; [millis()] returns its low 32 bits.  [gps_parse k] is what
    [GPS.parse] makes of the pending sentence: [None] when it rejects it (the
    driver object is left as it was), [Some g] when it accepts it and the
    fields read by the sketch become [g].  [fona_readSMS k] is the stored
    message text, [None] when the read fails. *)
Record Devices : Type := mkDevices {
  clock : nat -> Z;
  gps_read : nat -> ascii;
  gps_newNMEAreceived : nat -> bool;
  gps_parse : nat -> option GPSData;
  fona_begin : nat -> bool;
  fona_getNumSMS : nat -> Z;
  fona_readSMS : nat -> option string;
  fona_getSMSSender : nat -> option string;
  fona_sendSMS : nat -> bool
}.

Inductive event : Type :=
| SerialBegin (baud : Z)
| SerialPrint (s : string)
| SerialPrintNum (z : Z)
| SerialPrintChar (c : ascii)
| GpsBegin (baud : Z)
| GpsSendCommand (cmd : string)
| UseInterrupt (v : bool)
| PinModeOutput (pin : Z)
| GpsListen
| FonaListen
| GpsRead (c : ascii)
| GpsNewNMEA (b : bool)
| GpsParse (ok : bool)
| Millis (v : Z)
| FonaSSBegin (baud : Z)
| FonaBegin (ok : bool)
| FonaGetNumSMS (n : Z)
| FonaReadSMS (idx maxlen : Z) (r : option string)
| FonaGetSMSSender (idx maxlen : Z) (r : option string)
| FonaSendSMS (dest msg : string) (ok : bool)
| Tone (pin freq : Z)
| NoTone (pin : Z)
| Delay (ms : Z).

(** ** State and monad *)

(** [G] is the record of the sketch's global variables.  [log] is kept
    newest first; [events] gives it in the order things happened. *)
Record World (G : Type) : Type := mkWorld {
  globals : G;
  GPS : GPSData;
  log : list event
}.

Definition events {G} (w : World G) : list event := rev (log G w).

(** A program either returns, or never does ([while(1);]). *)
Inductive result (G A : Type) : Type :=
| Done (a : A) (w : World G)
| Hang (w : World G).

Definition M (G A : Type) : Type := Devices -> World G -> result G A.

Definition ret {G A} (a : A) : M G A := fun _ w => Done G A a w.

Definition bind {G A B} (m : M G A) (k : A -> M G B) : M G B :=
  fun d w => match m d w with
             | Done _ _ a w' => k a d w'
             | Hang _ _ w' => Hang G B w'
             end.

Definition hang {G A} : M G A := fun _ w => Hang G A w.

Definition world_of {G A} (r : result G A) : World G :=
  match r with Done _ _ _ w => w | Hang _ _ w => w end.

Definition returned {G A} (r : result G A) : bool :=
  match r with Done _ _ _ _ => true | Hang _ _ _ => false end.

End Machine.

Arguments mkWorld {_ G}.
Arguments globals {_ G}.
Arguments GPS {_ G}.
Arguments log {_ G}.
Arguments Done {_ G A}.
Arguments Hang {_ G A}.

Declare Scope sketch_scope.
Delimit Scope sketch_scope with sketch.
Notation "x <- c1 ;; c2" := (bind c1 (fun x => c2))
  (at level 61, c1 at next level, right associativity) : sketch_scope.
Notation "c1 ;; c2" := (bind c1 (fun _ => c2))
  (at level 61, right associativity) : sketch_scope.
Local Open Scope sketch_scope.

Section Primitives.
Context `{FloatFormat} {G : Type}.

Definition when (b : bool) (m : M G unit) : M G unit :=
  if b then m else ret tt.

(** Read and write the sketch's globals. *)
Definition gets {A} (f : G -> A) : M G A :=
  fun _ w => Done (f (globals w)) w.

Definition modify (f : G -> G) : M G unit :=
  fun _ w => Done tt (mkWorld (f (globals w)) (GPS w) (log w)).

Definition getGPS : M G GPSData := fun _ w => Done (GPS w) w.

Definition putGPS (g : GPSData) : M G unit :=
  fun _ w => Done tt (mkWorld (globals w) g (log w)).

(** Record an interaction. *)
Definition emit (e : event) : M G unit :=
  fun _ w => Done tt (mkWorld (globals w) (GPS w) (e :: log w)).

(** Ask the outside world; the answer is the oracle's at the current
    position in the log. *)
Definition ask {A} (q : Devices -> nat -> A) : M G A :=
  fun d w => Done (q d (List.length (log w))) w.

(** A [for] loop over the given indices. *)
Fixpoint for_each (l : list Z) (body : Z -> M G unit) : M G unit :=
  match l with
  | [] => ret tt
  | i :: r => body i ;; for_each r body
  end.

(** *** The clock and the serial monitor *)
Definition millis : M G Z :=
  t <- ask clock ;; emit (Millis (wrap32 t)) ;; ret (wrap32 t).

Definition delay (ms : Z) : M G unit := emit (Delay ms).
Definition tone (pin freq : Z) : M G unit := emit (Tone pin freq).
Definition noTone (pin : Z) : M G unit := emit (NoTone pin).
Definition Serial_begin (baud : Z) : M G unit := emit (SerialBegin baud).
Definition Serial_println (s : string) : M G unit := emit (SerialPrint s).
Definition Serial_printnum (z : Z) : M G unit := emit (SerialPrintNum z).
Definition Serial_printchar (c : ascii) : M G unit := emit (SerialPrintChar c).
Definition pinMode_OUTPUT (pin : Z) : M G unit := emit (PinModeOutput pin).

(** *** The GPS driver *)
Definition GPS_begin (baud : Z) : M G unit := emit (GpsBegin baud).
Definition GPS_sendCommand (cmd : string) : M G unit := emit (GpsSendCommand cmd).
Definition gpsSS_listen : M G unit := emit GpsListen.

Definition GPS_read : M G ascii :=
  c <- ask gps_read ;; emit (GpsRead c) ;; ret c.

Definition GPS_newNMEAreceived : M G bool :=
  b <- ask gps_newNMEAreceived ;; emit (GpsNewNMEA b) ;; ret b.

(** [GPS.parse(GPS.lastNMEA())]. *)
Definition GPS_parse : M G bool :=
  r <- ask gps_parse ;;
  match r with
  | Some g => putGPS g ;; emit (GpsParse true) ;; ret true
  | None => emit (GpsParse false) ;; ret false
  end.

(** *** The FONA modem driver *)
Definition fonaSS_begin (baud : Z) : M G unit := emit (FonaSSBegin baud).
Definition fonaSS_listen : M G unit := emit FonaListen.

Definition fona_begin_call : M G bool :=
  ok <- ask fona_begin ;; emit (FonaBegin ok) ;; ret ok.

(** [int8_t getNumSMS()]. *)
Definition fona_getNumSMS_call : M G Z :=
  n <- ask fona_getNumSMS ;;
  emit (FonaGetNumSMS (wrap_int8 n)) ;; ret (wrap_int8 n).

(** What [readSMS(i, buf, maxlen, &len)] leaves in [buf]: at most [maxlen]
    characters of the message, then the terminating NUL.  The sketches read
    [buf] back as a C string, see [c_str]. *)
Definition readSMS_text (maxlen : Z) (msg : string) : string :=
  substring 0 (Z.to_nat maxlen) msg.

(** Number of bytes [readSMS] stores into [buf]. *)
Definition readSMS_bytes (maxlen : Z) (msg : string) : Z :=
  strlen (readSMS_text maxlen msg) + 1.

Definition fona_readSMS_call (i maxlen : Z) : M G (option string) :=
  r <- ask fona_readSMS ;;
  emit (FonaReadSMS (wrap_uint8 i) maxlen r) ;;
  ret (option_map (readSMS_text maxlen) r).

Definition fona_getSMSSender_call (i maxlen : Z) : M G (option string) :=
  r <- ask fona_getSMSSender ;;
  emit (FonaGetSMSSender (wrap_uint8 i) maxlen r) ;; ret r.

Definition fona_sendSMS_call (dest msg : string) : M G bool :=
  ok <- ask fona_sendSMS ;; emit (FonaSendSMS dest msg ok) ;; ret ok.

End Primitives.

(** * The sketch of [src/unnamed/part_000] *)
Module Part000.

(** ** Global variables *)
Record Globals : Type := mkGlobals {
  replybuffer : string;
  beeping : bool;
  fonaSetup : bool;
  startSMS : Z;
  usingInterrupt : bool;
  gpsTimer : Z;
  fonaTimer : Z
}.

(** [char replybuffer[161];]  The field [replybuffer] holds the text that
    [readSMS] was told to store, whatever its length.  This is what the array
    holds as long as the text and its NUL take at most [replybuffer_size]
    bytes; line 226 allows 251, and what a longer text overwrites behind the
    array is not part of this model.  The statements below about the
    variables declared behind the array ([beeping], [fonaSetup], [startSMS])
    after a fetch therefore bound the stored texts. *)
Definition replybuffer_size : Z := 161.

Definition set_replybuffer (v : string) (g : Globals) : Globals :=
  mkGlobals v (beeping g) (fonaSetup g) (startSMS g) (usingInterrupt g)
            (gpsTimer g) (fonaTimer g).
Definition set_beeping (v : bool) (g : Globals) : Globals :=
  mkGlobals (replybuffer g) v (fonaSetup g) (startSMS g) (usingInterrupt g)
            (gpsTimer g) (fonaTimer g).
Definition set_fonaSetup (v : bool) (g : Globals) : Globals :=
  mkGlobals (replybuffer g) (beeping g) v (startSMS g) (usingInterrupt g)
            (gpsTimer g) (fonaTimer g).
Definition set_startSMS (v : Z) (g : Globals) : Globals :=
  mkGlobals (replybuffer g) (beeping g) (fonaSetup g) v (usingInterrupt g)
            (gpsTimer g) (fonaTimer g).
Definition set_usingInterrupt (v : bool) (g : Globals) : Globals :=
  mkGlobals (replybuffer g) (beeping g) (fonaSetup g) (startSMS g) v
            (gpsTimer g) (fonaTimer g).
Definition set_gpsTimer (v : Z) (g : Globals) : Globals :=
  mkGlobals (replybuffer g) (beeping g) (fonaSetup g) (startSMS g)
            (usingInterrupt g) v (fonaTimer g).
Definition set_fonaTimer (v : Z) (g : Globals) : Globals :=
  mkGlobals (replybuffer g) (beeping g) (fonaSetup g) (startSMS g)
            (usingInterrupt g) (gpsTimer g) v.

Section Sketch.
Context `{FloatFormat}.

Definition prog (A : Type) : Type := M Globals A.

(** Globals before any code runs: [beeping = false], [fonaSetup = false],
    the rest zero-initialised. *)
Definition boot : World Globals :=
  mkWorld (mkGlobals "" false false 0 false 0 0) GPS_init [].

(** [void useInterrupt(boolean v)] *)
Definition useInterrupt (v : bool) : prog unit :=
  if v then emit (UseInterrupt true) ;; modify (set_usingInterrupt true)
  else emit (UseInterrupt false) ;; modify (set_usingInterrupt false).

(** [void setup()] *)
Definition setup : prog unit :=
  Serial_begin 115200 ;;
  GPS_begin 9600 ;;
  GPS_sendCommand "PMTK_SET_NMEA_OUTPUT_RMCGGA" ;;
  GPS_sendCommand "PMTK_SET_NMEA_UPDATE_1HZ" ;;
  useInterrupt true ;;
  pinMode_OUTPUT BUZZ_PIN.

(** [void setupFONA()] *)
Definition setupFONA : prog unit :=
  fonaSS_begin 9600 ;;
  ok <- fona_begin_call ;;
  (if negb ok then
     for_each [0; 1; 2; 3] (fun _ =>
       tone BUZZ_PIN 100 ;; delay 500 ;; noTone BUZZ_PIN ;; delay 500) ;;
     hang
   else ret tt) ;;
  n <- fona_getNumSMS_call ;;
  modify (set_startSMS n) ;;
  modify (set_fonaSetup true) ;;
  for_each [0; 1; 2; 3] (fun i =>
    tone BUZZ_PIN (150 + i * 150) ;; delay 100 ;; noTone BUZZ_PIN).

(** [uint32_t gpsTimer = millis(); uint32_t fonaTimer = gpsTimer;] *)
Definition static_init : prog unit :=
  t <- millis ;;
  modify (set_gpsTimer t) ;;
  g <- gets gpsTimer ;;
  modify (set_fonaTimer g).

(** *** The parts of [loop()], in source order *)

(** Lines 158-167: select the GPS serial port; hand-query the GPS when the
    interrupt is off. *)
Definition hand_query : prog unit :=
  gpsSS_listen ;;
  ui <- gets usingInterrupt ;;
  when (negb ui)
    (c <- GPS_read ;;
     when GPSECHO (when (negb (Ascii.eqb c zero)) (Serial_printchar c))).

(** Lines 170-178: [true] when [loop()] executes its [return]. *)
Definition receive_sentence : prog bool :=
  new <- GPS_newNMEAreceived ;;
  if new then
    ok <- GPS_parse ;;
    if negb ok then ret true else ret false
  else ret false.

(** Lines 180-185. *)
Definition wrap_guard : prog unit :=
  g <- gets gpsTimer ;;
  m <- millis ;;
  when (g >? m) (m' <- millis ;; modify (set_gpsTimer m')) ;;
  f <- gets fonaTimer ;;
  m <- millis ;;
  when (f >? m) (m' <- millis ;; modify (set_fonaTimer m')) ;;
  m <- millis ;;
  g <- gets gpsTimer ;;
  Serial_printnum (sub32 m g) ;;
  Serial_println "/300000".

(** Lines 187-211: returns the locals [fix] (here [fix_]) and [coordinates].
    The buffer [coordinates] is only written, and only read, when [fix]
    holds.  The text is returned whole: this is what [char coordinates[30]]
    holds as long as the text has at most 29 characters (and each number at
    most 11, for [char degree[12]]); what a longer text overwrites is not
    part of this model. *)
Definition record_coordinates : prog (bool * string) :=
  gps <- getGPS ;;
  Serial_printnum (if gps_fix gps then 1 else 0) ;;
  let fix_ := gps_fix gps in
  if fix_ then
    fs <- gets fonaSetup ;;
    when (negb fs) setupFONA ;;
    let data :=
      dtostrf (latitudeDegrees gps) 2 4 ++ ", " ++
      dtostrf (longitudeDegrees gps) 3 4 ++ ", " ++
      dtostrf (altitude gps) 2 2 in
    Serial_println data ;;
    ret (fix_, data)
  else ret (fix_, "").

(** [fona.sendSMS] with the serial report of its outcome. *)
Definition send_reply (dest msg ok_text fail_text : string) : prog unit :=
  ok <- fona_sendSMS_call dest msg ;;
  if ok then Serial_println ok_text else Serial_println fail_text.

(** Lines 233-270: the command dispatch on the lowercased message. *)
Definition command (fix_ : bool) (coordinates phoneNum analyze : string)
  : prog unit :=
  if String.eqb analyze "gps" then
    if fix_ then send_reply phoneNum coordinates "SMS sent" "SMS failed"
    else send_reply phoneNum "ERROR: NO GPS FIX" "SMS sent" "SMS failed"
  else if String.eqb analyze "beep" then
    b <- gets beeping ;;
    if b then
      modify (set_beeping false) ;;
      send_reply phoneNum "BEEPING OFF" "SMS sent" "SMS failed"
    else
      modify (set_beeping true) ;;
      send_reply phoneNum "BEEPING ON" "SMS sent" "SMS failed"
  else
    send_reply phoneNum "INVALID COMMAND" "SMS sent" "SMS failed".

(** Lines 216-274: the command poll.  The fetched text goes to
    [replybuffer] (see there for texts longer than the array) and is read
    back from it as a C string. *)
Definition poll_commands (fix_ : bool) (coordinates : string) : prog unit :=
  m <- millis ;;
  ft <- gets fonaTimer ;;
  when (sub32 m ft >? 2000)
    (m' <- millis ;;
     modify (set_fonaTimer m') ;;
     fonaSS_listen ;;
     smsnum <- fona_getNumSMS_call ;;
     Serial_printnum smsnum ;;
     st <- gets startSMS ;;
     when (smsnum >? st)
       (n <- fona_getNumSMS_call ;;
        modify (set_startSMS n) ;;
        r <- fona_readSMS_call smsnum 250 ;;
        match r with
        | Some text =>
            modify (set_replybuffer text) ;;
            s <- fona_getSMSSender_call smsnum 21 ;;
            match s with
            | Some phoneNum =>
                rb <- gets replybuffer ;;
                let analyze := toLowerCase (c_str rb) in
                Serial_println analyze ;;
                command fix_ coordinates phoneNum analyze
            | None => ret tt
            end
        | None => ret tt
        end)).

(** Lines 276-289: the periodic report. *)
Definition periodic_report (fix_ : bool) (coordinates : string) : prog unit :=
  m <- millis ;;
  gt <- gets gpsTimer ;;
  when (sub32 m gt >? 300000)
    (m' <- millis ;;
     modify (set_gpsTimer m') ;;
     fonaSS_listen ;;
     if fix_ then send_reply sendto coordinates "Update sent" "Update failed"
     else send_reply sendto "WARNING: NO GPS FIX" "Update sent" "Update failed").

(** Lines 292-302: the alarm. *)
Definition alarm : prog unit :=
  b <- gets beeping ;;
  when b
    (delay 1750 ;;
     for_each [0; 1; 2; 3] (fun i =>
       tone BUZZ_PIN 4200 ;;
       (if negb (i =? 3)%Z then delay 100 else delay 250) ;;
       noTone BUZZ_PIN ;;
       delay 10)).

(** Lines 213-290: everything behind [if (fonaSetup)]. *)
Definition modem_steps (fix_ : bool) (coordinates : string) : prog unit :=
  fs <- gets fonaSetup ;;
  when fs (poll_commands fix_ coordinates ;; periodic_report fix_ coordinates).

(** Lines 180-302: what [loop()] does once it is past the sentence. *)
Definition loop_rest : prog unit :=
  wrap_guard ;;
  fc <- record_coordinates ;;
  modem_steps (fst fc) (snd fc) ;;
  alarm.

(** [void loop()] *)
Definition loop : prog unit :=
  hand_query ;;
  quit <- receive_sentence ;;
  if quit then ret tt else loop_rest.

(** The Arduino runtime: static initialisers, [setup()], then [loop()]
    again and again; [ticks n] is [n] passes of [loop()]. *)
Fixpoint ticks (n : nat) : prog unit :=
  match n with
  | O => ret tt
  | S k => loop ;; ticks k
  end.

Definition run (n : nat) : prog unit :=
  static_init ;; setup ;; ticks n.

End Sketch.
End Part000.

(** * The sketch of [src/tracker.ino] *)
Module Tracker.

Record Globals : Type := mkGlobals {
  replybuffer : string;
  beeping : bool;
  startSMS : Z;
  usingInterrupt : bool;
  timer : Z
}.

(** [char replybuffer[255];] *)
Definition replybuffer_size : Z := 255.

Definition set_replybuffer (v : string) (g : Globals) : Globals :=
  mkGlobals v (beeping g) (startSMS g) (usingInterrupt g) (timer g).
Definition set_beeping (v : bool) (g : Globals) : Globals :=
  mkGlobals (replybuffer g) v (startSMS g) (usingInterrupt g) (timer g).
Definition set_startSMS (v : Z) (g : Globals) : Globals :=
  mkGlobals (replybuffer g) (beeping g) v (usingInterrupt g) (timer g).
Definition set_usingInterrupt (v : bool) (g : Globals) : Globals :=
  mkGlobals (replybuffer g) (beeping g) (startSMS g) v (timer g).
Definition set_timer (v : Z) (g : Globals) : Globals :=
  mkGlobals (replybuffer g) (beeping g) (startSMS g) (usingInterrupt g) v.

Section Sketch.
Context `{FloatFormat}.

Definition prog (A : Type) : Type := M Globals A.

Definition boot : World Globals :=
  mkWorld (mkGlobals "" false 0 false 0) GPS_init [].

(** [void useInterrupt(boolean v)] *)
Definition useInterrupt (v : bool) : prog unit :=
  if v then emit (UseInterrupt true) ;; modify (set_usingInterrupt true)
  else emit (UseInterrupt false) ;; modify (set_usingInterrupt false).

(** [void setup()]: the modem is brought up here, before the first pass
    of [loop()]. *)
Definition setup : prog unit :=
  Serial_begin 115200 ;;
  GPS_begin 9600 ;;
  GPS_sendCommand "PMTK_SET_NMEA_OUTPUT_RMCGGA" ;;
  GPS_sendCommand "PMTK_SET_NMEA_UPDATE_1HZ" ;;
  GPS_sendCommand "PGCMD_ANTENNA" ;;
  useInterrupt true ;;
  pinMode_OUTPUT BUZZ_PIN ;;
  fonaSS_begin 4800 ;;
  ok <- fona_begin_call ;;
  (if negb ok then
     for_each [0; 1; 2; 3] (fun _ =>
       tone BUZZ_PIN 100 ;; delay 500 ;; noTone BUZZ_PIN ;; delay 500) ;;
     hang
   else ret tt) ;;
  n <- fona_getNumSMS_call ;;
  modify (set_startSMS n) ;;
  for_each [0; 1; 2; 3] (fun i =>
    tone BUZZ_PIN (150 + i * 150) ;; delay 100 ;; noTone BUZZ_PIN).

(** [uint32_t timer = millis();] *)
Definition static_init : prog unit :=
  t <- millis ;; modify (set_timer t).

(** Lines 154-163. *)
Definition hand_query : prog unit :=
  GPS_begin 9600 ;;
  ui <- gets usingInterrupt ;;
  when (negb ui)
    (c <- GPS_read ;;
     when GPSECHO (when (negb (Ascii.eqb c zero)) (Serial_printchar c))).

(** Lines 166-174: [true] when [loop()] executes its [return]. *)
Definition receive_sentence : prog bool :=
  new <- GPS_newNMEAreceived ;;
  if new then
    ok <- GPS_parse ;;
    if negb ok then ret true else ret false
  else ret false.

(** Lines 176-177. *)
Definition wrap_guard : prog unit :=
  t <- gets timer ;;
  m <- millis ;;
  when (t >? m) (m' <- millis ;; modify (set_timer m')).

(** Lines 179-188: the locals [fix] (here [fix_]) and [coordinates]. *)
Definition record_coordinates : prog (bool * string) :=
  gps <- getGPS ;;
  Serial_printnum (if gps_fix gps then 1 else 0) ;;
  let fix_ := gps_fix gps in
  if fix_ then
    let data :=
      "UPDATE: " ++
      (String_of_float (latitudeDegrees gps) 4 ++ ", ") ++
      (String_of_float (longitudeDegrees gps) 4 ++ ", ") ++
      String_of_float (altitude gps) 2 in
    ret (fix_, data)
  else ret (fix_, "").

(** Lines 203-235: the command dispatch on the lowercased message. *)
Definition command (fix_ : bool) (coordinates phoneNum analyze : string)
  : prog unit :=
  if String.eqb analyze "gps" then
    if fix_ then _ <- fona_sendSMS_call phoneNum coordinates ;; ret tt
    else _ <- fona_sendSMS_call phoneNum "NO GPS FIX" ;; ret tt
  else if String.eqb analyze "beep" then
    b <- gets beeping ;;
    if b then
      modify (set_beeping false) ;;
      _ <- fona_sendSMS_call phoneNum "BEEPING OFF" ;; ret tt
    else
      modify (set_beeping true) ;;
      _ <- fona_sendSMS_call phoneNum "BEEPING ON" ;; ret tt
  else
    _ <- fona_sendSMS_call phoneNum "INVALID COMMAND" ;; ret tt.

(** Lines 190-238: the command poll, on every pass. *)
Definition poll_commands (fix_ : bool) (coordinates : string) : prog unit :=
  fonaSS_begin 4800 ;;
  smsnum <- fona_getNumSMS_call ;;
  Serial_printnum smsnum ;;
  st <- gets startSMS ;;
  when (smsnum >? st)
    (n <- fona_getNumSMS_call ;;
     modify (set_startSMS n) ;;
     r <- fona_readSMS_call smsnum 250 ;;
     match r with
     | Some text =>
         modify (set_replybuffer text) ;;
         s <- fona_getSMSSender_call smsnum 21 ;;
         match s with
         | Some phoneNum =>
             rb <- gets replybuffer ;;
             let analyze := toLowerCase (c_str rb) in
             command fix_ coordinates phoneNum analyze
         | None => ret tt
         end
     | None => ret tt
     end).

(** Lines 240-250: the periodic report. *)
Definition periodic_report (fix_ : bool) (coordinates : string) : prog unit :=
  m <- millis ;;
  t <- gets timer ;;
  when (sub32 m t >? 300000)
    (m' <- millis ;;
     modify (set_timer m') ;;
     if fix_ then _ <- fona_sendSMS_call sendto coordinates ;; ret tt
     else _ <- fona_sendSMS_call sendto "UPDATE: NO GPS FIX" ;; ret tt).

(** Lines 252-261: the alarm. *)
Definition alarm : prog unit :=
  b <- gets beeping ;;
  when b
    (delay 1750 ;;
     for_each [0; 1; 2; 3] (fun i =>
       tone BUZZ_PIN 440 ;;
       (if negb (i =? 3)%Z then delay 100 else delay 250) ;;
       noTone BUZZ_PIN ;;
       delay 10)).

(** Lines 176-261: what [loop()] does once it is past the sentence. *)
Definition loop_rest : prog unit :=
  wrap_guard ;;
  fc <- record_coordinates ;;
  poll_commands (fst fc) (snd fc) ;;
  periodic_report (fst fc) (snd fc) ;;
  alarm.

(** [void loop()] *)
Definition loop : prog unit :=
  hand_query ;;
  quit <- receive_sentence ;;
  if quit then ret tt else loop_rest.

Fixpoint ticks (n : nat) : prog unit :=
  match n with
  | O => ret tt
  | S k => loop ;; ticks k
  end.

Definition run (n : nat) : prog unit :=
  static_init ;; setup ;; ticks n.

End Sketch.
End Tracker.

(** * What is observed of a run *)

Arguments wrap32 : simpl never.
Arguments sub32 : simpl never.
Arguments wrap_int8 : simpl never.
Arguments wrap_uint8 : simpl never.
Arguments readSMS_text : simpl never.

Section Observations.
Context `{FloatFormat}.

(** Anything that talks to the modem or selects its serial port. *)
Definition is_modem (e : event) : bool :=
  match e with
  | FonaListen | FonaSSBegin _ | FonaBegin _ | FonaGetNumSMS _
  | FonaReadSMS _ _ _ | FonaGetSMSSender _ _ _ | FonaSendSMS _ _ _ => true
  | _ => false
  end.

(** The call [fona.begin(fonaSS)] that [setupFONA] makes. *)
Definition is_bringup (e : event) : bool :=
  match e with FonaBegin _ => true | _ => false end.

Definition bringups (l : list event) : nat :=
  List.length (filter is_bringup l).

(** Text messages handed to the modem, newest first: (destination, text). *)
Fixpoint sms_sent (l : list event) : list (string * string) :=
  match l with
  | [] => []
  | FonaSendSMS dest msg _ :: r => (dest, msg) :: sms_sent r
  | _ :: r => sms_sent r
  end.

(** Messages fetched from the modem store, newest first. *)
Fixpoint sms_read (l : list event) : list (option string) :=
  match l with
  | [] => []
  | FonaReadSMS _ _ r :: tl => r :: sms_read tl
  | _ :: tl => sms_read tl
  end.

(** The two interval timers of [Part000.loop]. *)
Inductive timer_id : Type := ReportTimer | PollTimer.

Definition lastFired (t : timer_id) (g : Part000.Globals) : Z :=
  match t with
  | ReportTimer => Part000.gpsTimer g
  | PollTimer => Part000.fonaTimer g
  end.

Definition period (t : timer_id) : Z :=
  match t with ReportTimer => 300000 | PollTimer => 2000 end.

(** The first modem call made when a timer is found due: the periodic report
    sends a message, the command poll asks for the message count. *)
Definition first_action (t : timer_id) (e : event) : bool :=
  match t, e with
  | ReportTimer, FonaSendSMS _ _ _ => true
  | PollTimer, FonaGetNumSMS _ => true
  | _, _ => false
  end.

(** In the log a firing of timer [t] reads, oldest first: the clock read of
    the comparison, the clock read of the reset, [fonaSS.listen()], then the
    timer's first modem call.  [fired_here t l] is the oracle index of the
    comparison's clock read when [l] (newest first) ends in such a firing. *)
Definition fired_here (t : timer_id) (l : list event) : option nat :=
  match l with
  | e :: FonaListen :: Millis _ :: Millis _ :: r =>
      if first_action t e then Some (List.length r) else None
  | _ => None
  end.

(** Oracle indices of the comparisons at which timer [t] fired, newest
    first. *)
Fixpoint fires (t : timer_id) (l : list event) : list nat :=
  match l with
  | [] => []
  | e :: r =>
      match fired_here t (e :: r) with
      | Some k => k :: fires t r
      | None => fires t r
      end
  end.

(** The true clock never runs backwards. *)
Definition monotone (d : Devices) : Prop :=
  forall i j : nat, (i <= j)%nat -> clock d i <= clock d j.

(** Any two firings lie more than [p] milliseconds of true time apart. *)
Definition spaced (d : Devices) (p : Z) (l : list nat) : Prop :=
  forall i j, In i l -> In j l -> (i < j)%nat -> clock d j - clock d i > p.

(** ** Relations between the world before and after a program

    [respects d m R]: from any world [w], running [m] against [d] ends in a
    world related to [w] by [R]; the boolean tells whether [m] returned. *)
Definition rel (G : Type) : Type := World G -> bool -> World G -> Prop.

Definition respects {G A} (d : Devices) (m : M G A) (R : rel G) : Prop :=
  forall w, R w (returned (m d w)) (world_of (m d w)).

Record chain {G} (R : rel G) : Prop := mkChain {
  chain_refl : forall w, R w true w;
  chain_trans : forall w w1 b w2, R w true w1 -> R w1 b w2 -> R w b w2
}.

(** The events a program added to the log: [log w' = l ++ log w]. *)
Definition extends {G} (w w' : World G) (l : list event) : Prop :=
  log w' = (l ++ log w)%list.

(** The program returned. *)
Definition returns {G} : rel G := fun _ b _ => b = true.

(** The program kept the observation [f] of the globals and GPS data, and
    added only events accepted by [ok]. *)
Definition quiet {G X} (ok : event -> bool) (f : G -> GPSData -> X) : rel G :=
  fun w _ w' =>
    f (globals w') (GPS w') = f (globals w) (GPS w) /\
    exists l, extends w w' l /\ forallb ok l = true.

(** The program added a stretch of events satisfying [P]. *)
Definition adds {G} (P : list event -> Prop) : rel G :=
  fun w _ w' => exists l, extends w w' l /\ P l.

(** The program carries [I] to its end when it returns, and ends in [E] when
    it does not. *)
Definition carries {G} (I E : World G -> Prop) : rel G :=
  fun w b w' => I w -> if b then I w' else E w'.

(** [R] holds whenever the program starts from a world satisfying [P], and
    [P] still holds when it returns. *)
Definition from {G} (P : World G -> Prop) (R : rel G) : rel G :=
  fun w b w' => P w -> R w b w' /\ (b = true -> P w').

Definition both {G} (R1 R2 : rel G) : rel G :=
  fun w b w' => R1 w b w' /\ R2 w b w'.

Definition not_modem (e : event) : bool := negb (is_modem e).
Definition not_bringup (e : event) : bool := negb (is_bringup e).
Definition not_listen (e : event) : bool :=
  match e with FonaListen => false | _ => true end.

(** Observations of the state that stretches of [loop] leave alone. *)
Definition setup_flag (g : Part000.Globals) (_ : GPSData) : bool :=
  Part000.fonaSetup g.

Definition setup_flag_and_gps (g : Part000.Globals) (gps : GPSData)
  : bool * GPSData := (Part000.fonaSetup g, gps).

Definition timers_and_gps (g : Part000.Globals) (gps : GPSData)
  : Z * Z * GPSData := (Part000.gpsTimer g, Part000.fonaTimer g, gps).




Definition is_up (w : World Part000.Globals) : Prop :=
  Part000.fonaSetup (globals w) = true.

Definition gps_only (_ : Part000.Globals) (gps : GPSData) : GPSData := gps.

Definition any_event (_ : event) : bool := true.

(** The modem is not up and the GPS data hold no valid fix. *)
Definition waiting_for_fix (w : World Part000.Globals) : Prop :=
  Part000.fonaSetup (globals w) = false /\ gps_fix (GPS w) = false.

(** A stretch of events whose first modem calls are those of the bring-up. *)
Definition starts_with_bringup (l : list event) : Prop :=
  exists rest ok before,
    l = (rest ++ FonaBegin ok :: FonaSSBegin 9600 :: before)%list /\
    forallb not_modem before = true.

Definition whole_state (g : Part000.Globals) (gps : GPSData)
  : Part000.Globals * GPSData := (g, gps).

(** What [loop] does up to and including the parse of a sentence. *)
Definition sentence_event (e : event) : bool :=
  match e with
  | GpsListen | GpsRead _ | SerialPrintChar _ | GpsNewNMEA _ | GpsParse _ => true
  | _ => false
  end.

(** The newest event is not a [fonaSS.listen()] still waiting for the modem
    call that follows it. *)
Definition settled (l : list event) : Prop := hd_error l <> Some FonaListen.

(** A stretch of events in which timer [t] does not fire, wherever it is
    put on top of a settled log. *)
Definition no_fire (t : timer_id) (l : list event) : Prop :=
  forall old, settled old ->
    settled (l ++ old)%list /\ fires t (l ++ old)%list = fires t old.

Definition other (t : timer_id) : timer_id :=
  match t with ReportTimer => PollTimer | PollTimer => ReportTimer end.

(** The step of [loop] that checks timer [t]. *)
Definition step_of (t : timer_id) (fix_ : bool) (coordinates : string)
  : Part000.prog unit :=
  match t with
  | ReportTimer => Part000.periodic_report fix_ coordinates
  | PollTimer => Part000.poll_commands fix_ coordinates
  end.

Definition timers (g : Part000.Globals) (_ : GPSData) : Z * Z :=
  (Part000.gpsTimer g, Part000.fonaTimer g).

(** What a run keeps true of timer [t]: the log is settled; [lastFired] is
    the clock as read at some earlier interaction [k0]; no firing of [t] was
    decided after [k0]; and the firings so far are spaced by more than the
    period. *)
Definition timer_inv (t : timer_id) (d : Devices)
    (w : World Part000.Globals) : Prop :=
  settled (log w) /\
  exists k0 : nat,
    (k0 <= List.length (log w))%nat /\
    lastFired t (globals w) = wrap32 (clock d k0) /\
    (forall i, In i (fires t (log w)) -> (i <= k0)%nat) /\
    spaced d (period t) (fires t (log w)).

(** Timer [t] stands at [now]. *)
Definition timer_at (t : timer_id) (now : Z) (w : World Part000.Globals)
  : Prop := lastFired t (globals w) = now.

(** ** Further observations *)

(** Milliseconds spent in [delay] calls, over a stretch of events. *)
Fixpoint total_delay (l : list event) : Z :=
  match l with
  | [] => 0
  | Delay ms :: r => ms + total_delay r
  | _ :: r => total_delay r
  end.

(** The frequencies sounded on the buzzer, newest first. *)
Fixpoint tones (l : list event) : list Z :=
  match l with
  | [] => []
  | Tone _ freq :: r => freq :: tones r
  | _ :: r => tones r
  end.

(** The buzzer is off: the newest of the [tone]/[noTone] calls, if any, is a
    [noTone]. *)
Fixpoint buzzer_off (l : list event) : bool :=
  match l with
  | [] => true
  | Tone _ _ :: _ => false
  | NoTone _ :: _ => true
  | _ :: r => buzzer_off r
  end.

(** The hand query of the GPS made when the interrupt is off. *)
Definition not_hand_read (e : event) : bool :=
  match e with GpsRead _ | SerialPrintChar _ => false | _ => true end.

Definition interrupt_flag (g : Part000.Globals) (_ : GPSData) : bool :=
  Part000.usingInterrupt g.

Definition interrupt_on (w : World Part000.Globals) : Prop :=
  Part000.usingInterrupt (globals w) = true.

Definition alarm_flag (g : Part000.Globals) (_ : GPSData) : bool :=
  Part000.beeping g.

Definition not_fetch (e : event) : bool :=
  match e with FonaReadSMS _ _ _ => false | _ => true end.

(** A stretch of events in which the alarm flag can only have changed if a
    message was fetched. *)
Definition alarm_follows_fetch (w w' : World Part000.Globals)
    (l : list event) : Prop :=
  sms_read l = [] ->
  Part000.beeping (globals w') = Part000.beeping (globals w).

Definition alarm_only_by_message : rel Part000.Globals :=
  fun w _ w' => exists l, extends w w' l /\ alarm_follows_fetch w w' l.

(** The modem calls of a stretch of events, newest first. *)
Definition modem_calls (l : list event) : list event := filter is_modem l.

(** Whatever is said to the modem in the stretch comes after a
    [fonaSS.listen()] made in the same stretch. *)
Definition listens_first (l : list event) : Prop :=
  modem_calls l = [] \/
  exists m, modem_calls l = (m ++ [FonaListen])%list.

(** The modem is down and was never spoken to. *)
Definition modem_untouched (w : World Part000.Globals) : Prop :=
  Part000.fonaSetup (globals w) = false /\ modem_calls (log w) = [].

(** The only modem calls ever made are those of a failed bring-up. *)
Definition bringup_gave_up (w : World Part000.Globals) : Prop :=
  Part000.fonaSetup (globals w) = false /\
  modem_calls (log w) = [FonaBegin false; FonaSSBegin 9600].

(** The store indices of the messages fetched, newest first. *)
Fixpoint read_indices (l : list event) : list Z :=
  match l with
  | [] => []
  | FonaReadSMS i _ _ :: r => i :: read_indices r
  | _ :: r => read_indices r
  end.


Definition no_observation (_ : Part000.Globals) (_ : GPSData) : unit := tt.

(** The stretch starts by selecting the GPS serial port. *)
Definition selects_gps_first (l : list event) : Prop :=
  exists l', l = (l' ++ [GpsListen])%list.

(** The read asks for no more characters than a buffer of [cap] bytes can
    take with the terminating NUL. *)
Definition read_fits (cap : Z) (e : event) : bool :=
  match e with
  | FonaReadSMS _ maxlen _ => ((0 <=? maxlen) && (maxlen + 1 <=? cap))%Z%bool
  | _ => true
  end.

(** No message the modem hands over is written past the end of
    [Part000]'s [replybuffer]: read with the limit of line 226, the text and
    its terminating NUL take at most [replybuffer_size] bytes, that is, the
    stored text has at most 160 characters. *)
Definition texts_fit_replybuffer (d : Devices) : Prop :=
  forall (i : nat) (msg : string),
    fona_readSMS d i = Some msg ->
    readSMS_bytes 250 msg <= Part000.replybuffer_size.

Definition tracker_flags (g : Tracker.Globals) (_ : GPSData) : bool :=
  Tracker.usingInterrupt g.

Definition tracker_no_observation (_ : Tracker.Globals) (_ : GPSData) : unit :=
  tt.

Definition tracker_gps_only (_ : Tracker.Globals) (gps : GPSData) : GPSData :=
  gps.

Definition tracker_whole_state (g : Tracker.Globals) (gps : GPSData)
  : Tracker.Globals * GPSData := (g, gps).

Definition tracker_timer (g : Tracker.Globals) (_ : GPSData) : Z :=
  Tracker.timer g.

End Observations.

(** ** Concrete inputs used in the examples below *)

(** [dtostrf] of the value 0.0: [prec] digits after the point (no point when
    [prec] is 0), right-justified in [width] characters when that is more,
    left-justified for a negative [width]. *)
Definition zero_digits (prec : Z) : string :=
  if (prec <=? 0)%Z then "0"
  else "0." ++ string_of_list_ascii (repeat "0"%char (Z.to_nat prec)).

Definition spaces (n : Z) : string :=
  string_of_list_ascii (repeat " "%char (Z.to_nat n)).

Definition dtostrf_zero (width prec : Z) : string :=
  let s := zero_digits prec in
  if (0 <=? width)%Z then spaces (width - strlen s) ++ s
  else s ++ spaces (- width - strlen s).

(** A formatter for closed examples: the only value is 0.0.  Arduino's
    [String(val, n)] is [dtostrf(val, n + 2, n, buf)]. *)
Definition ExampleFloat : FloatFormat :=
  {| float := unit; fzero := tt;
     dtostrf := fun _ width prec => dtostrf_zero width prec;
     String_of_float := fun _ n => dtostrf_zero (n + 2) n |}.

(** Devices that stay silent: the clock reads [now], no sentence is pending,
    the modem answers every call successfully and stores [count] messages,
    the newest being [text] from [sender]. *)
Definition devices_at (now count : Z) (text : option string)
    (sender : option string) : @Devices ExampleFloat :=
  mkDevices (fun _ => now) (fun _ => zero) (fun _ => false) (fun _ => None)
            (fun _ => true) (fun _ => count) (fun _ => text)
            (fun _ => sender) (fun _ => true).

(** As [devices_at], with a sentence pending that the parser answers with
    [parsed]. *)
Definition devices_sentence (now : Z) (parsed : option (@GPSData ExampleFloat))
  : @Devices ExampleFloat :=
  mkDevices (fun _ => now) (fun _ => zero) (fun _ => true) (fun _ => parsed)
            (fun _ => true) (fun _ => 0) (fun _ => None)
            (fun _ => None) (fun _ => true).

(** Devices whose clock advances by [step] milliseconds per interaction. *)
Definition devices_ticking (step : Z) : @Devices ExampleFloat :=
  mkDevices (fun k => Z.of_nat k * step) (fun _ => zero) (fun _ => false)
            (fun _ => None) (fun _ => true) (fun _ => 0) (fun _ => None)
            (fun _ => None) (fun _ => true).

(** Devices with a fix: every pass finds a sentence that parses to a valid
    fix; the clock advances by [step] milliseconds per interaction and the
    modem stores no message. *)
Definition devices_tracking (step : Z) : @Devices ExampleFloat :=
  mkDevices (fun k => Z.of_nat k * step) (fun _ => zero) (fun _ => true)
            (fun _ => Some (@mkGPS ExampleFloat true tt tt tt)) (fun _ => true)
            (fun _ => 0) (fun _ => None) (fun _ => None) (fun _ => true).

(** As [devices_tracking], with a modem that does not answer
    [fona.begin]. *)
Definition devices_no_modem (step : Z) : @Devices ExampleFloat :=
  mkDevices (fun k => Z.of_nat k * step) (fun _ => zero) (fun _ => true)
            (fun _ => Some (@mkGPS ExampleFloat true tt tt tt)) (fun _ => false)
            (fun _ => 0) (fun _ => None) (fun _ => None) (fun _ => true).

(** As [devices_at], with a modem whose message reads fail. *)
Definition devices_unreadable (now count : Z) : @Devices ExampleFloat :=
  mkDevices (fun _ => now) (fun _ => zero) (fun _ => false) (fun _ => None)
            (fun _ => true) (fun _ => count) (fun _ => None)
            (fun _ => Some "+15550100") (fun _ => true).

(** Devices for a run from boot during which a message arrives: the modem
    stores 2 messages during the first 12 interactions and 3 afterwards, the
    newest being [text] from "+15550100"; no sentence is pending. *)
Definition devices_arriving (text : string) : @Devices ExampleFloat :=
  mkDevices (fun k => Z.of_nat k * 10) (fun _ => zero) (fun _ => false)
            (fun _ => None) (fun _ => true)
            (fun k => if Nat.ltb k 12 then 2 else 3)
            (fun _ => Some text) (fun _ => Some "+15550100") (fun _ => true).



(** A world of [Tracker] between passes: interrupt on, timer at [t],
    baseline [base]. *)
Definition tracker_world (alarm_on : bool) (base t : Z) (fx : bool)
  : @World ExampleFloat Tracker.Globals :=
  @mkWorld ExampleFloat _
    (Tracker.mkGlobals "" alarm_on base true t)
    (@mkGPS ExampleFloat fx tt tt tt) [].

(** A world of [Part000] after bring-up: interrupt on, timers at
    [gps_t] and [fona_t], baseline [base]. *)
Definition world_up (alarm_on : bool) (base gps_t fona_t : Z) (fx : bool)
  : @World ExampleFloat Part000.Globals :=
  @mkWorld ExampleFloat _
    (Part000.mkGlobals "" alarm_on true base true gps_t fona_t)
    (@mkGPS ExampleFloat fx tt tt tt) [].

(** A 200-character message. *)
Definition long_text : string :=
  Eval cbv in
    (let a20 := "aaaaaaaaaaaaaaaaaaaa" in
     let a100 := a20 ++ a20 ++ a20 ++ a20 ++ a20 in a100 ++ a100).

(** * Reasoning about programs through relations *)

Section Relations.
Context `{FloatFormat} {G : Type}.

Lemma returns_chain : chain (@returns _ G).
Proof. split; unfold returns; intros; congruence. Qed.

Lemma quiet_chain {X} (ok : event -> bool) (f : G -> GPSData -> X) :
  chain (quiet ok f).
Proof.
  split; unfold quiet, extends.
  - intros w. split; [reflexivity|]. exists []. split; reflexivity.
  - intros w w1 b w2 [E1 (l1 & L1 & O1)] [E2 (l2 & L2 & O2)].
    split; [congruence|]. exists (l2 ++ l1)%list.
    rewrite L2, L1, app_assoc, forallb_app, O1, O2. split; reflexivity.
Qed.

Lemma adds_chain (P : list event -> Prop) :
  P [] -> (forall l1 l2, P l1 -> P l2 -> P (l2 ++ l1)%list) ->
  chain (@adds _ G P).
Proof.
  intros Pnil Papp. split; unfold adds, extends.
  - intros w. exists []. split; [reflexivity|exact Pnil].
  - intros w w1 b w2 (l1 & L1 & P1) (l2 & L2 & P2).
    exists (l2 ++ l1)%list. rewrite L2, L1, app_assoc. auto.
Qed.

Lemma carries_chain (I E : World G -> Prop) : chain (carries I E).
Proof.
  split; unfold carries.
  - intros w Hw. exact Hw.
  - intros w w1 b w2 H1 H2 Hw. apply H2, H1, Hw.
Qed.

Lemma from_chain (P : World G -> Prop) (R : rel G) :
  chain R -> chain (from P R).
Proof.
  intros [Rr Rt]. split; unfold from.
  - intros w Hw. split; auto.
  - intros w w1 b w2 H1 H2 Hw.
    destruct (H1 Hw) as [R1 P1]. destruct (H2 (P1 eq_refl)) as [R2 P2].
    split; [eapply Rt; eassumption|exact P2].
Qed.

Lemma both_chain (R1 R2 : rel G) : chain R1 -> chain R2 -> chain (both R1 R2).
Proof.
  intros [r1 t1] [r2 t2]. split; unfold both.
  - intros w. split; auto.
  - intros w w1 b w2 [A1 A2] [B1 B2]. split; [eapply t1|eapply t2]; eassumption.
Qed.

Variable d : Devices.

Lemma respects_ret {A} (a : A) (R : rel G) : chain R -> respects d (ret a) R.
Proof. intros [Rr _] w. apply Rr. Qed.

Lemma respects_gets {A} (f : G -> A) (R : rel G) :
  chain R -> respects d (gets f) R.
Proof. intros [Rr _] w. apply Rr. Qed.

Lemma respects_ask {A} (q : Devices -> nat -> A) (R : rel G) :
  chain R -> respects d (ask q) R.
Proof. intros [Rr _] w. apply Rr. Qed.

Lemma respects_getGPS (R : rel G) : chain R -> respects d getGPS R.
Proof. intros [Rr _] w. apply Rr. Qed.

Lemma respects_bind {A B} (m : M G A) (k : A -> M G B) (R : rel G) :
  chain R -> respects d m R -> (forall a, respects d (k a) R) ->
  respects d (bind m k) R.
Proof.
  intros [Rr Rt] Hm Hk w. unfold bind. specialize (Hm w).
  destruct (m d w) as [a w1|w1]; cbn in *.
  - eapply Rt; [exact Hm|apply Hk].
  - exact Hm.
Qed.

(** A relation that holds of a program holds of it at every start. *)
Lemma respects_at {A} (m : M G A) (R : rel G) (w : World G) :
  respects d m R -> R w (returned (m d w)) (world_of (m d w)).
Proof. intros Hm. apply Hm. Qed.

Lemma respects_both {A} (m : M G A) (R1 R2 : rel G) :
  respects d m R1 -> respects d m R2 -> respects d m (both R1 R2).
Proof. intros H1 H2 w. split; [apply H1|apply H2]. Qed.

Lemma respects_weaken {A} (m : M G A) (R1 R2 : rel G) :
  (forall w b w', R1 w b w' -> R2 w b w') ->
  respects d m R1 -> respects d m R2.
Proof. intros Himp H1 w. apply Himp, H1. Qed.

End Relations.

(** Breaks a program down to its primitive steps; [chain_tac] proves that the
    relation is a chain, [prim_tac] proves a primitive step. *)
Ltac respects_by chain_tac prim_tac :=
  repeat lazymatch goal with
  | |- respects _ (bind _ _) _ =>
      apply respects_bind; [chain_tac | | intros ?]
  | |- respects _ (ret _) _ => apply respects_ret; chain_tac
  | |- respects _ (gets _) _ => apply respects_gets; chain_tac
  | |- respects _ (ask _) _ => apply respects_ask; chain_tac
  | |- respects _ getGPS _ => apply respects_getGPS; chain_tac
  | |- respects _ (when _ _) _ => unfold when
  | |- respects _ (if ?b then _ else _) _ => destruct b
  | |- respects _ (match ?x with Some _ => _ | None => _ end) _ => destruct x
  | |- respects _ (for_each _ _) _ => cbn [for_each]
  | |- respects _ (emit _) _ => prim_tac
  | |- respects _ (modify _) _ => prim_tac
  | |- respects _ (putGPS _) _ => prim_tac
  | |- respects _ hang _ => prim_tac
  end.

(** The wrappers of the primitive steps. *)
Ltac open_prims :=
  unfold fona_sendSMS_call, fona_getNumSMS_call,
    fona_readSMS_call, fona_getSMSSender_call, fona_begin_call,
    GPS_parse, GPS_newNMEAreceived, GPS_read, gpsSS_listen, fonaSS_listen,
    fonaSS_begin, GPS_begin, GPS_sendCommand, millis, delay, tone, noTone,
    Serial_begin, Serial_println, Serial_printnum, Serial_printchar,
    pinMode_OUTPUT.

(** A primitive step of a quiet program. *)
Ltac quiet_prim :=
  let w := fresh "w" in
  intros w; split;
  [ reflexivity
  | first [ exists []; split; reflexivity
          | eexists [_]; split; reflexivity ] ].

Ltac quiet_steps := respects_by ltac:(apply quiet_chain) ltac:(quiet_prim).

Ltac returns_steps :=
  respects_by ltac:(apply returns_chain) ltac:(intros ?; reflexivity).

(** * Properties of [Part000] *)

Section Part000Facts.
Context `{FloatFormat}.
Import Part000.

(** Unfolds one layer of the monad; the primitives all reduce by
    computation. *)
Ltac run_prims :=
  unfold send_reply, fona_sendSMS_call, fona_getNumSMS_call,
    fona_readSMS_call, fona_getSMSSender_call, fona_begin_call,
    GPS_parse, GPS_newNMEAreceived, GPS_read, gpsSS_listen, fonaSS_listen,
    fonaSS_begin, GPS_begin, GPS_sendCommand, millis, delay, tone, noTone,
    Serial_begin, Serial_println, Serial_printnum, Serial_printchar,
    pinMode_OUTPUT, when, bind, ret, gets, modify, emit, ask, getGPS,
    putGPS, hang;
  cbn [globals GPS log world_of returned fst snd for_each option_map].

(** Reduces projections and log lengths once a test has been decided. *)
Ltac red_prims :=
  cbn [globals GPS log world_of returned fst snd for_each option_map negb
       List.length replybuffer beeping fonaSetup startSMS usingInterrupt
       gpsTimer fonaTimer set_replybuffer set_beeping set_fonaSetup
       set_startSMS set_usingInterrupt set_gpsTimer set_fonaTimer].

(** Runs a program as far as its tests allow; whatever the devices answer
    stays symbolic. *)
Ltac exec := run_prims; red_prims.
Ltac exec_more := red_prims.

(** Splits an equation between pairs into its two components. *)
Ltac split_pair Hf A B :=
  pose proof (f_equal fst Hf) as A; pose proof (f_equal snd Hf) as B;
  cbn [fst snd globals GPS log] in A, B; clear Hf.

(** ** The command dispatch *)

Lemma send_reply_run dest msg okt failt d (w : World Globals) :
  send_reply dest msg okt failt d w =
  Done tt (mkWorld (globals w) (GPS w)
    (SerialPrint (if fona_sendSMS d (List.length (log w)) then okt else failt)
     :: FonaSendSMS dest msg (fona_sendSMS d (List.length (log w)))
     :: log w)).
Proof.
  run_prims. destruct (fona_sendSMS d (List.length (log w))); reflexivity.
Qed.

Lemma command_gps fix_ coords phone d (w : World Globals) :
  command fix_ coords phone "gps" d w =
  send_reply phone (if fix_ then coords else "ERROR: NO GPS FIX")
             "SMS sent" "SMS failed" d w.
Proof. unfold command. cbn. destruct fix_; reflexivity. Qed.

Lemma command_beep fix_ coords phone d (w : World Globals) :
  command fix_ coords phone "beep" d w =
  send_reply phone (if beeping (globals w) then "BEEPING OFF" else "BEEPING ON")
             "SMS sent" "SMS failed" d
             (mkWorld (set_beeping (negb (beeping (globals w))) (globals w))
                      (GPS w) (log w)).
Proof.
  unfold command. cbn. unfold bind, gets, modify.
  destruct (beeping (globals w)); reflexivity.
Qed.

Lemma command_other fix_ coords phone analyze d (w : World Globals) :
  analyze <> "gps" -> analyze <> "beep" ->
  command fix_ coords phone analyze d w =
  send_reply phone "INVALID COMMAND" "SMS sent" "SMS failed" d w.
Proof.
  intros Hg Hb. unfold command.
  destruct (String.eqb_spec analyze "gps"); [contradiction|].
  destruct (String.eqb_spec analyze "beep"); [contradiction|].
  reflexivity.
Qed.

(** C8: a payload that is neither "gps" nor "beep" once lowercased (such as
    "foo") is answered with the single message "INVALID COMMAND" to its
    sender; the alarm flag, every other global variable and the GPS data are
    left as they were: the only trace of the interpretation is the message
    handed to the modem and the serial line reporting its outcome. *)
Theorem unrecognized_payload_replies_invalid_command
    (payload phoneNum coordinates : string) (fix_ : bool) d
    (w : World Globals) :
  toLowerCase payload <> "gps" ->
  toLowerCase payload <> "beep" ->
  exists ok : bool,
    command fix_ coordinates phoneNum (toLowerCase payload) d w =
    Done tt (mkWorld (globals w) (GPS w)
      (SerialPrint (if ok then "SMS sent" else "SMS failed")
       :: FonaSendSMS phoneNum "INVALID COMMAND" ok :: log w)).
Proof.
  intros Hg Hb. exists (fona_sendSMS d (List.length (log w))).
  rewrite command_other by assumption. apply send_reply_run.
Qed.

(** C7: interpreting a payload other than "beep" twice in a row gives the
    same reply both times and leaves the alarm flag alone ("gps" replies with
    the coordinates or the no-fix text, anything else with "INVALID
    COMMAND"); interpreting "beep" twice in a row flips the alarm flag twice
    and gives opposite replies: from the alarm off, "BEEPING ON" then
    "BEEPING OFF". *)
Theorem command_twice_same_reply_unless_beep
    (payload phoneNum coordinates : string) (fix_ : bool) d
    (w : World Globals) :
  let analyze := toLowerCase payload in
  let w1 := world_of (command fix_ coordinates phoneNum analyze d w) in
  let w2 := world_of (command fix_ coordinates phoneNum analyze d w1) in
  if String.eqb analyze "beep" then
    beeping (globals w1) = negb (beeping (globals w)) /\
    beeping (globals w2) = beeping (globals w) /\
    sms_sent (log w1) =
      (phoneNum, if beeping (globals w) then "BEEPING OFF" else "BEEPING ON")
      :: sms_sent (log w) /\
    sms_sent (log w2) =
      (phoneNum, if beeping (globals w) then "BEEPING ON" else "BEEPING OFF")
      :: sms_sent (log w1)
  else
    let reply :=
      if String.eqb analyze "gps"
      then (if fix_ then coordinates else "ERROR: NO GPS FIX")
      else "INVALID COMMAND" in
    globals w1 = globals w /\
    globals w2 = globals w /\
    sms_sent (log w1) = (phoneNum, reply) :: sms_sent (log w) /\
    sms_sent (log w2) = (phoneNum, reply) :: sms_sent (log w1).
Proof.
  intros analyze. cbv zeta.
  destruct (String.eqb_spec analyze "beep") as [E|Hb].
  - rewrite E, !command_beep, !send_reply_run. cbn.
    destruct (beeping (globals w)); cbn; repeat split; reflexivity.
  - destruct (String.eqb_spec analyze "gps") as [E|Hg].
    + rewrite E, !command_gps, !send_reply_run. cbn. repeat split; reflexivity.
    + rewrite !command_other, !send_reply_run by assumption. cbn.
      repeat split; reflexivity.
Qed.

(** Scenario C, run on the code: alarm off, "beep" twice. *)
Example beep_twice_from_inactive d (w : World Globals) :
  beeping (globals w) = false ->
  let w1 := world_of (command false "" "+15550100" (toLowerCase "Beep") d w) in
  let w2 := world_of (command false "" "+15550100" (toLowerCase "Beep") d w1) in
  beeping (globals w1) = true /\ beeping (globals w2) = false /\
  sms_sent (log w2) =
    ("+15550100", "BEEPING OFF") :: ("+15550100", "BEEPING ON") :: sms_sent (log w).
Proof.
  intros Hoff.
  change (toLowerCase "Beep") with "beep". cbv zeta.
  rewrite !command_beep, !send_reply_run. cbn. rewrite Hoff. cbn.
  repeat split; reflexivity.
Qed.

(** ** The command poll *)

Lemma gtb_true (a b : Z) : a > b -> (a >? b) = true.
Proof. intros. unfold Z.gtb. destruct (Z.compare_spec a b); trivial; lia. Qed.

Lemma gtb_false (a b : Z) : a <= b -> (a >? b) = false.
Proof. intros. unfold Z.gtb. destruct (Z.compare_spec a b); trivial; lia. Qed.

Lemma gtb_cases (a b : Z) :
  (a > b /\ (a >? b) = true) \/ (a <= b /\ (a >? b) = false).
Proof.
  destruct (Z_gt_le_dec a b); [left|right]; auto using gtb_true, gtb_false.
Qed.

(** Not due: the clock is read once and nothing else happens. *)
Lemma poll_commands_not_due fix_ coords d (w : World Globals) :
  sub32 (wrap32 (clock d (List.length (log w)))) (fonaTimer (globals w)) <= 2000 ->
  poll_commands fix_ coords d w =
  Done tt (mkWorld (globals w) (GPS w)
                   (Millis (wrap32 (clock d (List.length (log w)))) :: log w)).
Proof.
  intros Hd. unfold poll_commands. run_prims.
  rewrite (gtb_false _ _ Hd). reflexivity.
Qed.

(** Due, and the count is not above the baseline: the timer is reset, the
    count is asked once, nothing is fetched or sent. *)
Lemma poll_commands_no_new fix_ coords d (w : World Globals) :
  let k := List.length (log w) in
  let c := wrap_int8 (fona_getNumSMS d (S (S (S k)))) in
  sub32 (wrap32 (clock d k)) (fonaTimer (globals w)) > 2000 ->
  c <= startSMS (globals w) ->
  poll_commands fix_ coords d w =
  Done tt (mkWorld (set_fonaTimer (wrap32 (clock d (S k))) (globals w)) (GPS w)
    (SerialPrintNum c :: FonaGetNumSMS c :: FonaListen
     :: Millis (wrap32 (clock d (S k))) :: Millis (wrap32 (clock d k))
     :: log w)).
Proof.
  intros k c Hd Hc. subst c k. unfold poll_commands. run_prims.
  rewrite (gtb_true _ _ Hd). red_prims.
  rewrite (gtb_false _ _ Hc). reflexivity.
Qed.

(** Due, the count is above the baseline, the message and its sender are
    read: the baseline becomes the count asked a second time, and the
    lowercased text goes through [command]. *)
Lemma poll_commands_new fix_ coords d (w : World Globals) text phone :
  let k := List.length (log w) in
  let c := wrap_int8 (fona_getNumSMS d (3 + k)) in
  let c' := wrap_int8 (fona_getNumSMS d (5 + k)) in
  sub32 (wrap32 (clock d k)) (fonaTimer (globals w)) > 2000 ->
  c > startSMS (globals w) ->
  fona_readSMS d (6 + k) = Some text ->
  fona_getSMSSender d (7 + k) = Some phone ->
  poll_commands fix_ coords d w =
  command fix_ coords phone (toLowerCase (c_str (readSMS_text 250 text))) d
    (mkWorld
       (set_replybuffer (readSMS_text 250 text)
          (set_startSMS c'
             (set_fonaTimer (wrap32 (clock d (S k))) (globals w))))
       (GPS w)
       (SerialPrint (toLowerCase (c_str (readSMS_text 250 text)))
        :: FonaGetSMSSender (wrap_uint8 c) 21 (Some phone)
        :: FonaReadSMS (wrap_uint8 c) 250 (Some text)
        :: FonaGetNumSMS c'
        :: SerialPrintNum c :: FonaGetNumSMS c :: FonaListen
        :: Millis (wrap32 (clock d (S k))) :: Millis (wrap32 (clock d k))
        :: log w)).
Proof.
  intros k c c' Hd Hc Hr Hs. subst c c' k. cbn [Nat.add] in *.
  unfold poll_commands. run_prims.
  rewrite (gtb_true _ _ Hd). red_prims.
  rewrite (gtb_true _ _ Hc). red_prims.
  rewrite Hr. red_prims. rewrite Hs. reflexivity.
Qed.

Lemma set_beeping_same (g : Globals) : set_beeping (beeping g) g = g.
Proof. destruct g; reflexivity. Qed.

(** Whatever the text, [command] returns after exactly one message to the
    sender, touching no global but [beeping]. *)
Lemma command_shape fix_ coords phone analyze d (w : World Globals) :
  exists (msg txt : string) (ok b : bool),
    command fix_ coords phone analyze d w =
    Done tt (mkWorld (set_beeping b (globals w)) (GPS w)
               (SerialPrint txt :: FonaSendSMS phone msg ok :: log w)).
Proof.
  destruct (String.eqb_spec analyze "beep") as [->|Hb].
  - rewrite command_beep, send_reply_run. cbn [globals GPS log].
    do 4 eexists. reflexivity.
  - destruct (String.eqb_spec analyze "gps") as [->|Hg].
    + rewrite command_gps, send_reply_run.
      exists (if fix_ then coords else "ERROR: NO GPS FIX").
      do 2 eexists. exists (beeping (globals w)).
      rewrite set_beeping_same. reflexivity.
    + rewrite command_other, send_reply_run by assumption.
      do 3 eexists. exists (beeping (globals w)).
      rewrite set_beeping_same. reflexivity.
Qed.

Lemma toLowerCase_length (s : string) :
  String.length (toLowerCase s) = String.length s.
Proof. induction s; cbn; congruence. Qed.

Lemma substring_whole (s : string) (n : nat) :
  (String.length s <= n)%nat -> substring 0 n s = s.
Proof.
  revert n. induction s as [|c s IH]; intros [|n] Hn; cbn in *; try reflexivity.
  - lia.
  - rewrite IH by lia. reflexivity.
Qed.

Lemma tolower_zero (c : ascii) : Ascii.eqb (tolower c) zero = Ascii.eqb c zero.
Proof. destruct c as [[] [] [] [] [] [] [] []]; reflexivity. Qed.

(** A text whose lower-case form holds no NUL is read whole as a C string. *)
Lemma c_str_toLowerCase (s : string) :
  c_str (toLowerCase s) = toLowerCase s -> c_str s = s.
Proof.
  induction s as [|c s IH]; cbn [c_str toLowerCase]; [reflexivity|].
  rewrite tolower_zero. destruct (Ascii.eqb c zero); intros E.
  - discriminate E.
  - injection E as E. rewrite (IH E). reflexivity.
Qed.

(** A message of at most 250 characters is copied whole. *)
Lemma readSMS_text_short (s : string) :
  (String.length s <= 250)%nat -> readSMS_text 250 s = s.
Proof. intros. unfold readSMS_text. apply substring_whole. exact H0. Qed.

(** C6: when the poll fetches a new message whose lowercased text is "gps"
    while the pass has no valid fix, the poll returns having handed the modem
    exactly one message, addressed to the sender, with the text
    "ERROR: NO GPS FIX". *)
Theorem gps_query_without_fix_replies_error
    d (w : World Globals) (coordinates payload phoneNum : string) :
  sub32 (wrap32 (clock d (List.length (log w)))) (fonaTimer (globals w)) > 2000 ->
  (forall i, wrap_int8 (fona_getNumSMS d i) > startSMS (globals w)) ->
  (forall i, fona_readSMS d i = Some payload) ->
  (forall i, fona_getSMSSender d i = Some phoneNum) ->
  toLowerCase payload = "gps" ->
  let r := poll_commands false coordinates d w in
  returned r = true /\
  sms_sent (log (world_of r)) =
    (phoneNum, "ERROR: NO GPS FIX") :: sms_sent (log w).
Proof.
  intros Hdue Hnew Hread Hsender Hgps r. subst r.
  assert (Hlen : (String.length payload <= 250)%nat).
  { rewrite <- toLowerCase_length, Hgps. cbn. lia. }
  rewrite (poll_commands_new false coordinates d w payload phoneNum)
    by auto.
  assert (Hc : c_str payload = payload).
  { apply c_str_toLowerCase. rewrite Hgps. reflexivity. }
  rewrite (readSMS_text_short _ Hlen), Hc, Hgps, command_gps, send_reply_run.
  cbn. split; reflexivity.
Qed.

Lemma sms_read_app (l1 l2 : list event) :
  sms_read (l1 ++ l2)%list = (sms_read l1 ++ sms_read l2)%list.
Proof.
  induction l1 as [|e l1 IH]; [reflexivity|].
  destruct e; cbn; rewrite ?IH; reflexivity.
Qed.

Lemma sms_sent_app (l1 l2 : list event) :
  sms_sent (l1 ++ l2)%list = (sms_sent l1 ++ sms_sent l2)%list.
Proof.
  induction l1 as [|e l1 IH]; [reflexivity|].
  destruct e; cbn; rewrite ?IH; reflexivity.
Qed.


(** Baseline already at the count: nothing is fetched or sent. *)
Lemma poll_commands_quiet fix_ coords d (w : World Globals) :
  (forall i, wrap_int8 (fona_getNumSMS d i) <= startSMS (globals w)) ->
  exists l,
    poll_commands fix_ coords d w =
      Done tt (mkWorld
        (if sub32 (wrap32 (clock d (List.length (log w)))) (fonaTimer (globals w))
            >? 2000
         then set_fonaTimer (wrap32 (clock d (S (List.length (log w))))) (globals w)
         else globals w)
        (GPS w) (l ++ log w)%list) /\
    sms_read l = [] /\ sms_sent l = [].
Proof.
  intros Hc.
  destruct (gtb_cases
    (sub32 (wrap32 (clock d (List.length (log w)))) (fonaTimer (globals w)))
    2000) as [[Hd E]|[Hd E]]; rewrite E.
  - rewrite poll_commands_no_new by auto.
    eexists (_ :: _ :: _ :: _ :: _ :: []). split; [reflexivity|]. cbn. repeat split.
  - rewrite poll_commands_not_due by auto.
    eexists (_ :: []). split; [reflexivity|]. cbn. repeat split.
Qed.


(** ** Which parts of [loop] touch what *)

(** The blocks of [loop], opened down to the primitive steps. *)
Ltac open_blocks :=
  unfold loop, loop_rest, modem_steps, hand_query, receive_sentence,
    wrap_guard, record_coordinates, setupFONA, poll_commands,
    periodic_report, alarm, command, send_reply, setup, static_init,
    useInterrupt;
  open_prims.

(** Nothing outside [setupFONA] writes [fonaSetup] or calls [fona.begin]. *)
Lemma hand_query_no_bringup d :
  respects d hand_query (quiet not_bringup setup_flag).
Proof. open_blocks. quiet_steps. Qed.

Lemma receive_sentence_no_bringup d :
  respects d receive_sentence (quiet not_bringup setup_flag).
Proof. open_blocks. quiet_steps. Qed.

Lemma wrap_guard_no_bringup d :
  respects d wrap_guard (quiet not_bringup setup_flag).
Proof. open_blocks. quiet_steps. Qed.

Lemma modem_steps_no_bringup d fix_ coords :
  respects d (modem_steps fix_ coords) (quiet not_bringup setup_flag).
Proof. open_blocks. quiet_steps. Qed.

Lemma alarm_no_bringup d :
  respects d alarm (quiet not_bringup setup_flag).
Proof. open_blocks. quiet_steps. Qed.

Ltac calm_steps := apply respects_both; [returns_steps | quiet_steps].












Lemma record_coordinates_stays_up d :
  respects d record_coordinates
           (from is_up (both returns (quiet not_bringup setup_flag))).
Proof.
  intros w Hup. unfold is_up in Hup.
  unfold record_coordinates. exec.
  destruct (gps_fix (GPS w)); exec.
  - rewrite Hup. exec. split; [|intros _; exact Hup].
    split; [reflexivity|]. split; [reflexivity|].
    eexists [_; _]. split; reflexivity.
  - split; [|intros _; exact Hup].
    split; [reflexivity|]. split; [reflexivity|].
    eexists [_]. split; reflexivity.
Qed.







(** ** Nothing reaches the modem before the first fix *)

Ltac calm_chain :=
  first [ apply from_chain, both_chain; [apply returns_chain|apply quiet_chain]
        | apply both_chain; [apply returns_chain|apply quiet_chain] ].

Lemma hand_query_no_modem d :
  respects d hand_query (both returns (quiet not_modem setup_flag_and_gps)).
Proof. open_blocks. calm_steps. Qed.

Lemma wrap_guard_no_modem d :
  respects d wrap_guard (both returns (quiet not_modem setup_flag_and_gps)).
Proof. open_blocks. calm_steps. Qed.

Lemma alarm_no_modem d :
  respects d alarm (both returns (quiet not_modem setup_flag_and_gps)).
Proof. open_blocks. calm_steps. Qed.

Lemma static_init_no_modem d :
  respects d static_init (both returns (quiet not_modem setup_flag_and_gps)).
Proof. open_blocks. calm_steps. Qed.

Lemma setup_no_modem d :
  respects d setup (both returns (quiet not_modem setup_flag_and_gps)).
Proof. open_blocks. cbn match. calm_steps. Qed.

(** Past the sentence nothing writes the GPS data. *)
Lemma loop_rest_keeps_gps d :
  respects d loop_rest (quiet any_event gps_only).
Proof. open_blocks. quiet_steps. Qed.

Lemma calm_keeps_waiting (w : World Globals) b (w' : World Globals) :
  both returns (quiet not_modem setup_flag_and_gps) w b w' ->
  from waiting_for_fix (both returns (quiet not_modem setup_flag_and_gps)) w b w'.
Proof.
  intros Hq Hw. split; [exact Hq|]. intros _.
  destruct Hq as [_ [Hf _]]. unfold waiting_for_fix, setup_flag_and_gps in *.
  split_pair Hf Hs Hg. rewrite Hs, Hg. exact Hw.
Qed.

Lemma record_coordinates_waiting d :
  respects d record_coordinates
    (from waiting_for_fix (both returns (quiet not_modem setup_flag_and_gps))).
Proof.
  intros w [Hs Hfix]. unfold record_coordinates. run_prims. rewrite Hfix. cbn.
  repeat split; try assumption. eexists [_]. split; reflexivity.
Qed.

Lemma modem_steps_waiting d fix_ coords :
  respects d (modem_steps fix_ coords)
    (from waiting_for_fix (both returns (quiet not_modem setup_flag_and_gps))).
Proof.
  intros w [Hs Hfix]. unfold modem_steps. run_prims. rewrite Hs. cbn.
  repeat split; try assumption. exists []. split; reflexivity.
Qed.

Lemma loop_rest_waiting d :
  respects d loop_rest
    (from waiting_for_fix (both returns (quiet not_modem setup_flag_and_gps))).
Proof.
  unfold loop_rest.
  respects_by ltac:(calm_chain) ltac:(idtac);
    try apply record_coordinates_waiting; try apply modem_steps_waiting;
    (eapply respects_weaken;
     [apply calm_keeps_waiting
     | first [apply wrap_guard_no_modem | apply alarm_no_modem]]).
Qed.

Lemma hand_query_pumps d :
  respects d hand_query (both returns (quiet sentence_event whole_state)).
Proof. open_blocks. calm_steps. Qed.

Lemma sentence_event_not_modem (l : list event) :
  forallb sentence_event l = true -> forallb not_modem l = true.
Proof.
  induction l as [|e l IH]; [reflexivity|]. cbn [forallb].
  intros Hl. apply andb_prop in Hl as [He Hl]. rewrite (IH Hl), andb_true_r.
  destruct e; try discriminate He; reflexivity.
Qed.

(** The three ways a pass can go at the sentence: none pending, one rejected
    (and [loop] returns at once), one accepted. *)
Lemma loop_cases d (w : World Globals) :
  exists (w1 : World Globals) (l1 : list event),
    globals w1 = globals w /\ GPS w1 = GPS w /\
    log w1 = (l1 ++ log w)%list /\ forallb sentence_event l1 = true /\
    ((gps_newNMEAreceived d (List.length (log w1)) = false /\
      loop d w =
        loop_rest d (mkWorld (globals w) (GPS w) (GpsNewNMEA false :: log w1)))
     \/
     (gps_newNMEAreceived d (List.length (log w1)) = true /\
      gps_parse d (S (List.length (log w1))) = None /\
      loop d w =
        Done tt (mkWorld (globals w) (GPS w)
                   (GpsParse false :: GpsNewNMEA true :: log w1)))
     \/
     (exists g,
      gps_newNMEAreceived d (List.length (log w1)) = true /\
      gps_parse d (S (List.length (log w1))) = Some g /\
      loop d w =
        loop_rest d (mkWorld (globals w) g
                       (GpsParse true :: GpsNewNMEA true :: log w1)))).
Proof.
  destruct (hand_query_pumps d w) as [Hret [Hf (l1 & Hl1 & Hok1)]].
  unfold returns in Hret. unfold whole_state in Hf. unfold extends in Hl1.
  assert (Hloop : loop d w =
    match hand_query d w with
    | Done _ w1 =>
        match receive_sentence d w1 with
        | Done quit w2 => if quit then Done tt w2 else loop_rest d w2
        | Hang w2 => Hang w2
        end
    | Hang w1 => Hang w1
    end).
  { unfold loop, bind, ret. destruct (hand_query d w) as [? w1|?]; [|reflexivity].
    destruct (receive_sentence d w1) as [[] ?|?]; reflexivity. }
  rewrite Hloop. clear Hloop.
  destruct (hand_query d w) as [[] w1|w1]; [clear Hret|discriminate Hret].
  cbn [world_of] in *. split_pair Hf Hg Hgps.
  exists w1, l1. unfold receive_sentence. exec. rewrite Hg, Hgps.
  split; [reflexivity|]. split; [reflexivity|].
  split; [exact Hl1|]. split; [exact Hok1|].
  destruct (gps_newNMEAreceived d (List.length (log w1))); exec.
  - destruct (gps_parse d (S (List.length (log w1)))) as [g|]; exec.
    + right. right. exists g. auto.
    + right. left. auto.
  - left. auto.
Qed.

(** A pass that starts with the modem down and ends without a valid fix
    returns, leaves the modem down and makes no modem call. *)
Lemma loop_without_fix d (w : World Globals) :
  fonaSetup (globals w) = false ->
  gps_fix (GPS (world_of (loop d w))) = false ->
  returned (loop d w) = true /\
  fonaSetup (globals (world_of (loop d w))) = false /\
  exists l, extends w (world_of (loop d w)) l /\ forallb not_modem l = true.
Proof.
  intros Hs.
  destruct (loop_cases d w) as (w1 & l1 & Hg1 & Hgps1 & Hl1 & Hok1 & Hcase).
  apply sentence_event_not_modem in Hok1.
  assert (Hrest : forall g (e : list event),
    gps_fix (GPS (world_of (loop_rest d (mkWorld (globals w) g (e ++ log w1)%list))))
      = false ->
    forallb not_modem e = true ->
    returned (loop_rest d (mkWorld (globals w) g (e ++ log w1)%list)) = true /\
    fonaSetup (globals (world_of
      (loop_rest d (mkWorld (globals w) g (e ++ log w1)%list)))) = false /\
    exists l, extends w (world_of
      (loop_rest d (mkWorld (globals w) g (e ++ log w1)%list))) l /\
      forallb not_modem l = true).
  { intros g e Hfix He.
    pose proof (loop_rest_keeps_gps d (mkWorld (globals w) g (e ++ log w1)%list))
      as [Hkeep _].
    unfold gps_only in Hkeep. cbn [GPS] in Hkeep. rewrite Hkeep in Hfix.
    destruct (loop_rest_waiting d (mkWorld (globals w) g (e ++ log w1)%list))
      as [[Hret [Hf (l2 & Hl2 & Hok2)]] _].
    { split; [exact Hs|exact Hfix]. }
    unfold returns in Hret. unfold setup_flag_and_gps in Hf.
    split_pair Hf Hs2 Hg2. cbn [globals] in Hs2.
    split; [exact Hret|]. split; [congruence|].
    exists (l2 ++ e ++ l1)%list. unfold extends in *. rewrite Hl2. cbn [log].
    rewrite Hl1, <- !app_assoc. split; [reflexivity|].
    rewrite !forallb_app, Hok2, He, Hok1. reflexivity. }
  destruct Hcase as [[_ ->]|[(_ & _ & ->)|(g & _ & _ & ->)]].
  - intros Hfix. apply (Hrest (GPS w) [GpsNewNMEA false]); auto.
  - intros _. cbn [returned world_of globals log].
    split; [reflexivity|]. split; [exact Hs|].
    exists (GpsParse false :: GpsNewNMEA true :: l1)%list. unfold extends.
    rewrite Hl1. split; [reflexivity|]. cbn [forallb]. rewrite Hok1. reflexivity.
  - intros Hfix. apply (Hrest g [GpsParse true; GpsNewNMEA true]); auto.
Qed.

Lemma suffix_here {A} (s : list A) : exists rest, s = (rest ++ s)%list.
Proof. exists []. reflexivity. Qed.

Lemma suffix_later {A} (e : A) (l s : list A) :
  (exists rest, l = (rest ++ s)%list) -> exists rest, e :: l = (rest ++ s)%list.
Proof. intros [rest ->]. exists (e :: rest). reflexivity. Qed.

(** Finds the given tail in an explicit list. *)
Ltac find_suffix := repeat first [ apply suffix_here | apply suffix_later ].

(** With a fix and the modem still down, the first thing
    [record_coordinates] does after printing the fix flag is the bring-up. *)
Lemma record_coordinates_first_fix d (w : World Globals) :
  fonaSetup (globals w) = false ->
  gps_fix (GPS w) = true ->
  exists ok rest,
    log (world_of (record_coordinates d w)) =
    (rest ++ FonaBegin ok :: FonaSSBegin 9600 :: SerialPrintNum 1 :: log w)%list.
Proof.
  intros Hs Hfix. unfold record_coordinates, setupFONA. exec.
  rewrite Hfix. exec. rewrite Hs. exec.
  exists (fona_begin d (S (S (List.length (log w))))).
  destruct (fona_begin d _); exec; find_suffix.
Qed.

Lemma after_coordinates_extends d (r : bool * string) :
  respects d (modem_steps (fst r) (snd r) ;; alarm) (quiet any_event gps_only).
Proof. open_blocks. quiet_steps. Qed.

(** The pass in which the fix turns valid: the bring-up comes before any
    other modem call. *)
Lemma loop_first_fix d (w : World Globals) :
  waiting_for_fix w ->
  gps_fix (GPS (world_of (loop d w))) = true ->
  exists l, extends w (world_of (loop d w)) l /\ starts_with_bringup l.
Proof.
  intros [Hs Hnofix].
  destruct (loop_cases d w) as (w1 & l1 & Hg1 & Hgps1 & Hl1 & Hok1 & Hcase).
  apply sentence_event_not_modem in Hok1.
  destruct Hcase as [[_ ->]|[(_ & _ & ->)|(g & _ & _ & ->)]].
  - intros Hfix.
    pose proof (loop_rest_keeps_gps d
      (mkWorld (globals w) (GPS w) (GpsNewNMEA false :: log w1))) as [Hkeep _].
    unfold gps_only in Hkeep. cbn [GPS] in Hkeep. congruence.
  - cbn [world_of GPS]. congruence.
  - intros Hfix.
    pose proof (loop_rest_keeps_gps d
      (mkWorld (globals w) g (GpsParse true :: GpsNewNMEA true :: log w1)))
      as [Hkeep _].
    unfold gps_only in Hkeep. cbn [GPS] in Hkeep. rewrite Hkeep in Hfix.
    clear Hkeep. unfold loop_rest.
    destruct (wrap_guard_no_modem d
      (mkWorld (globals w) g (GpsParse true :: GpsNewNMEA true :: log w1)))
      as [Hret [Hf (l2 & Hl2 & Hok2)]].
    unfold returns in Hret. unfold setup_flag_and_gps in Hf.
    unfold extends in Hl2. cbn [globals GPS log] in Hf, Hl2.
    unfold bind at 1.
    destruct (wrap_guard d _) as [[] w2|w2]; [clear Hret|discriminate Hret].
    cbn [world_of] in *. split_pair Hf Hs2 Hg2.
    destruct (record_coordinates_first_fix d w2) as (ok & rest & Hrec);
      [congruence|congruence|].
    pose proof (after_coordinates_extends d) as Hafter.
    unfold bind at 1.
    destruct (record_coordinates d w2) as [fc w3|w3]; cbn [world_of] in *.
    + destruct (Hafter fc w3) as [_ (l3 & Hl3 & _)]. unfold extends in Hl3.
      exists (l3 ++ rest ++ FonaBegin ok :: FonaSSBegin 9600
                :: SerialPrintNum 1 :: l2
                ++ GpsParse true :: GpsNewNMEA true :: l1)%list.
      split.
      * unfold extends. rewrite Hl3, Hrec, Hl2, Hl1.
        repeat (rewrite <- app_assoc; cbn [app]). reflexivity.
      * exists (l3 ++ rest)%list, ok,
          (SerialPrintNum 1 :: l2 ++ GpsParse true :: GpsNewNMEA true :: l1)%list.
        split; [repeat (rewrite <- app_assoc; cbn [app]); reflexivity|].
        cbn [forallb]. rewrite forallb_app, Hok2. cbn [forallb]. rewrite Hok1.
        reflexivity.
    + exists (rest ++ FonaBegin ok :: FonaSSBegin 9600
                :: SerialPrintNum 1 :: l2
                ++ GpsParse true :: GpsNewNMEA true :: l1)%list.
      split.
      * unfold extends. rewrite Hrec, Hl2, Hl1.
        repeat (rewrite <- app_assoc; cbn [app]). reflexivity.
      * exists rest, ok,
          (SerialPrintNum 1 :: l2 ++ GpsParse true :: GpsNewNMEA true :: l1)%list.
        split; [reflexivity|].
        cbn [forallb]. rewrite forallb_app, Hok2. cbn [forallb]. rewrite Hok1.
        reflexivity.
Qed.

(** ** Runs *)

Lemma ticks_last d (n : nat) (w : World Globals) :
  ticks (S n) d w = (ticks n ;; loop) d w.
Proof.
  revert w. induction n as [|n IH]; intros w.
  - cbn [ticks]. unfold bind, ret. destruct (loop d w) as [[] ?|?]; reflexivity.
  - change (ticks (S (S n)) d w) with ((loop ;; ticks (S n)) d w).
    change ((ticks (S n) ;; loop) d w)
      with (((loop ;; ticks n) ;; loop) d w).
    unfold bind. fold (bind (ticks n) (fun _ => loop)).
    destruct (loop d w) as [[] w1|w1]; [|reflexivity].
    apply IH.
Qed.

Lemma run_last d (n : nat) (w : World Globals) :
  run (S n) d w = (run n ;; loop) d w.
Proof.
  unfold run, bind.
  destruct (static_init d w) as [[] w1|?]; [|reflexivity].
  destruct (setup d w1) as [[] w2|?]; [|reflexivity].
  rewrite ticks_last. reflexivity.
Qed.

Lemma run_zero_no_modem d :
  returned (run 0 d boot) = true /\
  waiting_for_fix (world_of (run 0 d boot)) /\
  forallb not_modem (log (world_of (run 0 d boot))) = true.
Proof. unfold run, static_init, setup, useInterrupt. run_prims. cbn. repeat split. Qed.

Lemma run_without_fix d (n : nat) :
  (forall k, (k <= n)%nat -> gps_fix (GPS (world_of (run k d boot))) = false) ->
  returned (run n d boot) = true /\
  fonaSetup (globals (world_of (run n d boot))) = false /\
  forallb not_modem (log (world_of (run n d boot))) = true.
Proof.
  induction n as [|n IH]; intros Hfix.
  - destruct (run_zero_no_modem d) as (Hr & [Hs _] & Hl). auto.
  - destruct IH as (Hr & Hs & Hl); [intros k Hk; apply Hfix; lia|].
    specialize (Hfix (S n) (le_n _)). rewrite run_last in *. unfold bind in *.
    destruct (run n d boot) as [[] w|w]; [|discriminate Hr].
    cbn [world_of] in *.
    destruct (loop_without_fix d w Hs Hfix) as (Hr' & Hs' & l & Hext & Hok).
    split; [exact Hr'|]. split; [exact Hs'|].
    unfold extends in Hext. rewrite Hext, forallb_app, Hok, Hl. reflexivity.
Qed.

(** C2: as long as no pass of [loop] has ended with a valid fix, the run has
    returned from every pass, [fonaSetup] is false and the log holds no modem
    call at all (no bring-up, no count poll, no fetch, no send, no switch to
    the modem's serial port); and if the next pass ends with a valid fix, the
    first modem calls of the whole run are those of the bring-up,
    [fonaSS.begin(9600)] then [fona.begin]. *)
Theorem no_modem_before_first_fix d (n : nat) :
  (forall k, (k <= n)%nat -> gps_fix (GPS (world_of (run k d boot))) = false) ->
  returned (run n d boot) = true /\
  fonaSetup (globals (world_of (run n d boot))) = false /\
  forallb not_modem (log (world_of (run n d boot))) = true /\
  (gps_fix (GPS (world_of (run (S n) d boot))) = true ->
   starts_with_bringup (log (world_of (run (S n) d boot)))).
Proof.
  intros Hfix.
  destruct (run_without_fix d n Hfix) as (Hr & Hs & Hl).
  split; [exact Hr|]. split; [exact Hs|]. split; [exact Hl|].
  specialize (Hfix n (le_n _)). rewrite run_last. unfold bind.
  destruct (run n d boot) as [[] w|w]; [|discriminate Hr].
  cbn [world_of] in *. intros Hnow.
  destruct (loop_first_fix d w (conj Hs Hfix) Hnow)
    as (l & Hext & rest & ok & before & -> & Hok).
  unfold extends in Hext. rewrite Hext.
  exists rest, ok, (before ++ log w)%list. split.
  - repeat (rewrite <- app_assoc; cbn [app]). reflexivity.
  - rewrite forallb_app, Hok, Hl. reflexivity.
Qed.

(** ** A sentence that fails to parse *)

(** C5, as the code has it: in a pass where a sentence is pending and the
    parser rejects it, [loop] returns (the failure is not fatal) with every
    global variable and the GPS data unchanged, and the pass is abandoned
    there: the rejected parse is its last action, and it has read no clock,
    made no modem call and sounded no tone.  In a pass where the parser
    accepts the sentence, the GPS data at the end of the pass are exactly the
    parsed ones. *)
Theorem failed_parse_abandons_pass d (w : World Globals) :
  (forall i, gps_newNMEAreceived d i = true) ->
  ((forall i, gps_parse d i = None) ->
   returned (loop d w) = true /\
   globals (world_of (loop d w)) = globals w /\
   GPS (world_of (loop d w)) = GPS w /\
   exists l,
     extends w (world_of (loop d w)) (GpsParse false :: GpsNewNMEA true :: l) /\
     forallb sentence_event l = true) /\
  (forall g, (forall i, gps_parse d i = Some g) ->
   GPS (world_of (loop d w)) = g).
Proof.
  intros Hnew.
  destruct (loop_cases d w) as (w1 & l1 & Hg1 & Hgps1 & Hl1 & Hok1 & Hcase).
  split.
  - intros Hparse.
    destruct Hcase as [[E _]|[(_ & _ & ->)|(g & _ & E & _)]];
      [rewrite Hnew in E; discriminate E| |rewrite Hparse in E; discriminate E].
    cbn [returned world_of globals GPS log].
    repeat (split; [reflexivity|]).
    exists l1. unfold extends. cbn [log app]. rewrite Hl1.
    split; [reflexivity|exact Hok1].
  - intros g Hparse.
    destruct Hcase as [[E _]|[(_ & E & _)|(g' & _ & E & ->)]];
      [rewrite Hnew in E; discriminate E|rewrite Hparse in E; discriminate E|].
    rewrite Hparse in E. injection E as <-.
    pose proof (loop_rest_keeps_gps d
      (mkWorld (globals w) g (GpsParse true :: GpsNewNMEA true :: log w1)))
      as [Hkeep _].
    exact Hkeep.
Qed.

(** ** The interval timers *)

Lemma periodic_report_not_due fix_ coords d (w : World Globals) :
  sub32 (wrap32 (clock d (List.length (log w)))) (gpsTimer (globals w)) <= 300000 ->
  periodic_report fix_ coords d w =
  Done tt (mkWorld (globals w) (GPS w)
                   (Millis (wrap32 (clock d (List.length (log w)))) :: log w)).
Proof.
  intros Hd. unfold periodic_report. run_prims.
  rewrite (gtb_false _ _ Hd). reflexivity.
Qed.

Lemma periodic_report_due fix_ coords d (w : World Globals) :
  let k := List.length (log w) in
  sub32 (wrap32 (clock d k)) (gpsTimer (globals w)) > 300000 ->
  periodic_report fix_ coords d w =
  send_reply sendto (if fix_ then coords else "WARNING: NO GPS FIX")
    "Update sent" "Update failed" d
    (mkWorld (set_gpsTimer (wrap32 (clock d (S k))) (globals w)) (GPS w)
       (FonaListen :: Millis (wrap32 (clock d (S k)))
        :: Millis (wrap32 (clock d k)) :: log w)).
Proof.
  intros k Hd. subst k. unfold periodic_report. run_prims.
  rewrite (gtb_true _ _ Hd). red_prims. destruct fix_; reflexivity.
Qed.

Lemma wrap32_range (z : Z) : 0 <= wrap32 z < 2 ^ 32.
Proof. unfold wrap32. apply Z.mod_pos_bound. reflexivity. Qed.

Lemma sub32_same (z : Z) : sub32 z z = 0.
Proof. unfold sub32, wrap32. rewrite Z.sub_diag. reflexivity. Qed.

(** C1, as the code has it: with the clock reading [now] throughout, the
    report is not due while the elapsed time [now - gpsTimer] (unsigned,
    32 bits) is at most 300000 ms, so neither at 299999 nor at exactly
    300000, and then nothing changes and nothing is sent; once the elapsed
    time exceeds 300000 ms it is due: [gpsTimer] becomes [now] and one report
    goes to [sendto]; checked again at the same clock value it is not due. *)
Theorem report_due_when_elapsed_exceeds_period
    d (w : World Globals) (fix_ : bool) (coordinates : string) (now : Z) :
  (forall i, wrap32 (clock d i) = now) ->
  let elapsed := sub32 now (gpsTimer (globals w)) in
  let r := periodic_report fix_ coordinates d w in
  returned r = true /\
  (elapsed <= 300000 ->
   globals (world_of r) = globals w /\
   sms_sent (log (world_of r)) = sms_sent (log w)) /\
  (elapsed > 300000 ->
   gpsTimer (globals (world_of r)) = now /\
   sms_sent (log (world_of r)) =
     (sendto, if fix_ then coordinates else "WARNING: NO GPS FIX")
     :: sms_sent (log w) /\
   let r' := periodic_report fix_ coordinates d (world_of r) in
   returned r' = true /\
   globals (world_of r') = globals (world_of r) /\
   sms_sent (log (world_of r')) = sms_sent (log (world_of r))).
Proof.
  intros Hclock elapsed r. subst elapsed r.
  destruct (gtb_cases (sub32 now (gpsTimer (globals w))) 300000)
    as [[Hd _]|[Hd _]].
  - rewrite periodic_report_due, send_reply_run by (rewrite Hclock; exact Hd).
    cbn [returned world_of globals GPS log]. rewrite !Hclock.
    split; [reflexivity|]. split; [intros; lia|]. intros _.
    split; [reflexivity|]. split; [reflexivity|].
    rewrite periodic_report_not_due.
    + repeat split.
    + cbn [globals gpsTimer set_gpsTimer]. rewrite Hclock, sub32_same. lia.
  - rewrite periodic_report_not_due by (rewrite Hclock; exact Hd).
    cbn [returned world_of globals GPS log].
    split; [reflexivity|]. split; [|intros; lia]. intros _. split; reflexivity.
Qed.

(** *** Firings in the log *)

Lemma fired_here_settled t e (l : list event) :
  settled l -> fired_here t (e :: l) = None.
Proof.
  unfold settled. destruct l as [|x l]; [reflexivity|].
  destruct x; cbn; trivial. intros Hx. exfalso. apply Hx. reflexivity.
Qed.

Lemma settled_cons e (l : list event) : not_listen e = true -> settled (e :: l).
Proof. unfold settled. destruct e; cbn; intros; congruence. Qed.

Lemma no_listen_no_fire t (l : list event) :
  forallb not_listen l = true -> no_fire t l.
Proof.
  induction l as [|e l IH]; intros Hl old Hold.
  - auto.
  - cbn [forallb] in Hl. apply andb_prop in Hl as [He Hl].
    destruct (IH Hl old Hold) as [Hs Hf]. cbn [app]. split.
    + apply settled_cons, He.
    + cbn [fires]. rewrite (fired_here_settled t e _ Hs). exact Hf.
Qed.

Lemma no_fire_nil t : no_fire t [].
Proof. intros old Hold. auto. Qed.

Lemma no_fire_app t (l1 l2 : list event) :
  no_fire t l1 -> no_fire t l2 -> no_fire t (l2 ++ l1)%list.
Proof.
  intros H1 H2 old Hold. destruct (H1 old Hold) as [S1 F1].
  destruct (H2 _ S1) as [S2 F2]. rewrite <- app_assoc.
  split; [exact S2|congruence].
Qed.

(** The log of a step that found its timer due. *)
Lemma fires_after_firing t (l1 : list event) e (a b : Z) (old : list event) :
  forallb not_listen l1 = true -> not_listen e = true -> settled old ->
  settled (l1 ++ e :: FonaListen :: Millis a :: Millis b :: old)%list /\
  fires t (l1 ++ e :: FonaListen :: Millis a :: Millis b :: old)%list =
    if first_action t e then List.length old :: fires t old else fires t old.
Proof.
  intros Hl1 He Hold.
  destruct (no_listen_no_fire t l1 Hl1
              (e :: FonaListen :: Millis a :: Millis b :: old)
              (settled_cons _ _ He)) as [Hs ->].
  split; [exact Hs|]. cbn [fires].
  rewrite (fired_here_settled t (Millis b) old Hold).
  change (fired_here t (Millis a :: Millis b :: old)) with (@None nat).
  change (fired_here t (FonaListen :: Millis a :: Millis b :: old))
    with (@None nat).
  change (fired_here t (e :: FonaListen :: Millis a :: Millis b :: old))
    with (if first_action t e then Some (List.length old) else None).
  destruct (first_action t e); reflexivity.
Qed.

Lemma first_action_not_listen t e : first_action t e = true -> not_listen e = true.
Proof. destruct t, e; cbn; congruence. Qed.

(** *** The two timer steps have the same shape *)

(** Either the step finds its timer not due, reads the clock once and changes
    nothing; or it finds it due, stores the clock read next in its timer,
    selects the modem's serial port and makes its first modem call. *)
Lemma step_of_shape t fix_ coords d (w : World Globals) :
  let k := List.length (log w) in
  let m := wrap32 (clock d k) in
  let m' := wrap32 (clock d (S k)) in
  (sub32 m (lastFired t (globals w)) <= period t /\
   step_of t fix_ coords d w =
     Done tt (mkWorld (globals w) (GPS w) (Millis m :: log w))) \/
  (sub32 m (lastFired t (globals w)) > period t /\
   exists g' l1 e,
     step_of t fix_ coords d w =
       Done tt (mkWorld g' (GPS w)
                  (l1 ++ e :: FonaListen :: Millis m' :: Millis m :: log w)%list) /\
     forallb not_listen l1 = true /\
     first_action t e = true /\
     first_action (other t) e = false /\
     lastFired t g' = m' /\
     lastFired (other t) g' = lastFired (other t) (globals w)).
Proof.
  intros k m m'. subst k m m'.
  destruct (gtb_cases
    (sub32 (wrap32 (clock d (List.length (log w)))) (lastFired t (globals w)))
    (period t)) as [[Hd _]|[Hd _]]; [right|left]; (split; [exact Hd|]).
  - destruct t; cbn [step_of lastFired period other] in *.
    + rewrite periodic_report_due, send_reply_run by exact Hd.
      cbn [globals GPS log].
      eexists _, [_], _. split; [reflexivity|]. repeat split.
    + unfold poll_commands. run_prims.
      rewrite (gtb_true _ _ Hd). red_prims.
      destruct (_ >? _); red_prims.
      * destruct (fona_readSMS d _) as [text|]; red_prims.
        -- destruct (fona_getSMSSender d _) as [phone|]; red_prims.
           ++ match goal with |- context [command ?f ?c ?p ?a ?d ?w] =>
                destruct (command_shape f c p a d w)
                  as (msg & txt & ok & b & ->) end.
              red_prims. eexists _, [_; _; _; _; _; _; _], _.
              split; [reflexivity|]. repeat split.
           ++ eexists _, [_; _; _; _], _. split; [reflexivity|]. repeat split.
        -- eexists _, [_; _; _], _. split; [reflexivity|]. repeat split.
      * eexists _, [_], _. split; [reflexivity|]. repeat split.
  - destruct t; cbn [step_of lastFired period] in *.
    + apply periodic_report_not_due, Hd.
    + apply poll_commands_not_due, Hd.
Qed.

(** *** What a run keeps true of a timer *)

(** Elapsed time as the sketch computes it never exceeds the true elapsed
    time. *)
Lemma sub32_le_true_elapsed (a b : Z) :
  b <= a -> sub32 (wrap32 a) (wrap32 b) <= a - b.
Proof.
  intros Hab. unfold sub32, wrap32.
  rewrite <- Zminus_mod. apply Z.mod_le; lia.
Qed.

Lemma quiet_keeps_timer_inv t d (w : World Globals) b (w' : World Globals) :
  quiet not_listen timers w b w' ->
  carries (timer_inv t d) (timer_inv t d) w b w'.
Proof.
  intros [Hf (l & Hl & Hok)] (Hs & k0 & Hk & Hlast & Hle & Hsp).
  unfold extends in Hl. unfold timers in Hf. split_pair Hf Hg Hp.
  destruct (no_listen_no_fire t l Hok (log w) Hs) as [Hs' Hfires].
  assert (Hinv : timer_inv t d w').
  { unfold timer_inv. rewrite Hl, Hfires. split; [exact Hs'|].
    exists k0. rewrite length_app. repeat split; try assumption; [lia|].
    destruct t; cbn [lastFired] in *; congruence. }
  destruct b; exact Hinv.
Qed.

Lemma quiet_keeps_timer_at t now (w : World Globals) b (w' : World Globals) :
  quiet not_listen timers w b w' ->
  from (timer_at t now) (adds (no_fire t)) w b w'.
Proof.
  intros [Hf (l & Hl & Hok)] Hat. unfold timers in Hf.
  split_pair Hf Hg Hp. split.
  - exists l. split; [exact Hl|apply no_listen_no_fire, Hok].
  - intros _. unfold timer_at in *. destruct t; cbn [lastFired] in *; congruence.
Qed.

(** The step that checks [t]: a firing is recorded only when more than the
    period has truly elapsed since the reading kept in the timer. *)
Lemma step_of_keeps_timer_inv t fix_ coords d :
  monotone d ->
  respects d (step_of t fix_ coords) (carries (timer_inv t d) (timer_inv t d)).
Proof.
  intros Hmono w (Hs & k0 & Hk & Hlast & Hle & Hsp).
  destruct (step_of_shape t fix_ coords d w)
    as [[Hd ->]|[Hd (g' & l1 & e & -> & Hl1 & He & _ & Ht & _)]];
    cbn [returned world_of].
  - unfold timer_inv. cbn [globals log].
    destruct (no_listen_no_fire t [Millis (wrap32 (clock d (List.length (log w))))]
                eq_refl (log w) Hs) as [Hs' Hf].
    cbn [app] in Hs', Hf. rewrite Hf. split; [exact Hs'|].
    exists k0. cbn [List.length]. repeat split; try assumption. lia.
  - unfold timer_inv. cbn [globals log].
    destruct (fires_after_firing t l1 e
                (wrap32 (clock d (S (List.length (log w)))))
                (wrap32 (clock d (List.length (log w)))) (log w) Hl1
                (first_action_not_listen t e He) Hs) as [Hs' Hf].
    rewrite Hf, He. split; [exact Hs'|].
    exists (S (List.length (log w))). rewrite length_app. cbn [List.length].
    split; [lia|]. split; [exact Ht|].
    assert (Hnew : forall i, In i (fires t (log w)) ->
              clock d (List.length (log w)) - clock d i > period t).
    { intros i Hi. specialize (Hle i Hi).
      pose proof (Hmono i k0 Hle). pose proof (Hmono k0 _ Hk).
      rewrite Hlast in Hd.
      pose proof (sub32_le_true_elapsed _ _ H1). lia. }
    split.
    + intros i [<-|Hi]; [lia|]. specialize (Hle i Hi). lia.
    + intros i j [<-|Hi] [<-|Hj] Hij.
      * lia.
      * specialize (Hle j Hj). lia.
      * apply Hnew, Hi.
      * apply Hsp; assumption.
Qed.

(** The step that checks the other timer leaves [t] alone. *)
Lemma step_of_other_keeps_timer_inv t fix_ coords d :
  respects d (step_of (other t) fix_ coords)
           (carries (timer_inv t d) (timer_inv t d)).
Proof.
  intros w (Hs & k0 & Hk & Hlast & Hle & Hsp).
  destruct (step_of_shape (other t) fix_ coords d w)
    as [[Hd ->]|[Hd (g' & l1 & e & -> & Hl1 & He & He' & _ & Ht)]];
    cbn [returned world_of].
  - unfold timer_inv. cbn [globals log].
    destruct (no_listen_no_fire t [Millis (wrap32 (clock d (List.length (log w))))]
                eq_refl (log w) Hs) as [Hs' Hf].
    cbn [app] in Hs', Hf. rewrite Hf. split; [exact Hs'|].
    exists k0. cbn [List.length]. repeat split; try assumption. lia.
  - unfold timer_inv. cbn [globals log].
    destruct (fires_after_firing t l1 e
                (wrap32 (clock d (S (List.length (log w)))))
                (wrap32 (clock d (List.length (log w)))) (log w) Hl1
                (first_action_not_listen _ e He) Hs) as [Hs' Hf].
    replace (other (other t)) with t in * by (destruct t; reflexivity).
    rewrite Hf, He'. split; [exact Hs'|].
    exists k0. rewrite length_app. cbn [List.length].
    repeat split; try assumption; [lia|congruence].
Qed.

(** Events without [fonaSS.listen()] on top of the log, with timer [t]
    either kept or set to a clock reading taken since. *)
Lemma timer_inv_extend t d (w : World Globals) g' gps' (l : list event) :
  timer_inv t d w ->
  forallb not_listen l = true ->
  (lastFired t g' = lastFired t (globals w) \/
   exists k, (List.length (log w) <= k <= List.length (l ++ log w))%nat /\
             lastFired t g' = wrap32 (clock d k)) ->
  timer_inv t d (mkWorld g' gps' (l ++ log w)%list).
Proof.
  intros (Hs & k0 & Hk & Hlast & Hle & Hsp) Hok Hset.
  destruct (no_listen_no_fire t l Hok (log w) Hs) as [Hs' Hf].
  unfold timer_inv. cbn [globals log]. rewrite Hf. split; [exact Hs'|].
  destruct Hset as [Hkeep|(k & Hk' & Hset)].
  - exists k0. rewrite length_app. repeat split; try assumption; [lia|congruence].
  - exists k. repeat split; try assumption; [lia|].
    intros i Hi. specialize (Hle i Hi). lia.
Qed.

(** The events [L] added on top of [base]. *)
Ltac prefix_of L base :=
  lazymatch L with
  | base => constr:(@nil event)
  | ?e :: ?r => let p := prefix_of r base in constr:(e :: p)
  end.

Ltac extend_timer_inv w :=
  lazymatch goal with
  | |- timer_inv ?t ?d (mkWorld ?g ?gps ?L) =>
      let l := prefix_of L (log w) in
      change (timer_inv t d (mkWorld g gps (l ++ log w)%list));
      apply timer_inv_extend; [assumption | reflexivity | ]
  end.

Lemma wrap_guard_keeps_timer_inv t d :
  respects d wrap_guard (carries (timer_inv t d) (timer_inv t d)).
Proof.
  intros w Hinv. unfold wrap_guard. run_prims.
  destruct (_ >? _); red_prims; (destruct (_ >? _); red_prims);
    extend_timer_inv w;
    destruct t; cbn [lastFired gpsTimer fonaTimer];
    first [ left; reflexivity
          | right; eexists; split; [|reflexivity]; cbn [List.length app]; lia ].
Qed.

Lemma static_init_timer_inv t d :
  timer_inv t d (world_of (static_init d boot)).
Proof.
  unfold static_init. run_prims. cbn. unfold timer_inv. cbn.
  split; [unfold settled; cbn; congruence|].
  exists 0%nat. repeat split; try lia; try contradiction.
  - destruct t; reflexivity.
  - intros i j [].
Qed.

Lemma hand_query_timers d :
  respects d hand_query (quiet not_listen timers).
Proof. open_blocks. quiet_steps. Qed.

Lemma receive_sentence_timers d :
  respects d receive_sentence (quiet not_listen timers).
Proof. open_blocks. quiet_steps. Qed.

Lemma record_coordinates_timers d :
  respects d record_coordinates (quiet not_listen timers).
Proof. open_blocks. quiet_steps. Qed.

Lemma alarm_timers d :
  respects d alarm (quiet not_listen timers).
Proof. open_blocks. quiet_steps. Qed.

Lemma setup_timers d :
  respects d setup (quiet not_listen timers).
Proof. open_blocks. cbn match. quiet_steps. Qed.

Ltac use_timers :=
  first [ apply hand_query_timers | apply receive_sentence_timers
        | apply record_coordinates_timers | apply alarm_timers
        | apply setup_timers ].

Lemma step_keeps_timer_inv t t' fix_ coords d :
  monotone d ->
  respects d (step_of t' fix_ coords) (carries (timer_inv t d) (timer_inv t d)).
Proof.
  intros Hmono. destruct t, t';
    first [ apply step_of_keeps_timer_inv, Hmono
          | apply (step_of_other_keeps_timer_inv ReportTimer)
          | apply (step_of_other_keeps_timer_inv PollTimer) ].
Qed.

Lemma modem_steps_keeps_timer_inv t fix_ coords d :
  monotone d ->
  respects d (modem_steps fix_ coords) (carries (timer_inv t d) (timer_inv t d)).
Proof.
  intros Hmono. unfold modem_steps.
  change (poll_commands fix_ coords) with (step_of PollTimer fix_ coords).
  change (periodic_report fix_ coords) with (step_of ReportTimer fix_ coords).
  respects_by ltac:(apply carries_chain) ltac:(idtac);
    apply step_keeps_timer_inv, Hmono.
Qed.

Lemma loop_keeps_timer_inv t d :
  monotone d ->
  respects d loop (carries (timer_inv t d) (timer_inv t d)).
Proof.
  intros Hmono. unfold loop, loop_rest.
  respects_by ltac:(apply carries_chain) ltac:(idtac);
    first [ apply wrap_guard_keeps_timer_inv
          | apply modem_steps_keeps_timer_inv, Hmono
          | eapply respects_weaken; [apply quiet_keeps_timer_inv | use_timers] ].
Qed.

Lemma ticks_keeps_timer_inv t d n :
  monotone d ->
  respects d (ticks n) (carries (timer_inv t d) (timer_inv t d)).
Proof.
  intros Hmono. induction n as [|n IH]; cbn [ticks].
  - apply respects_ret, carries_chain.
  - apply respects_bind;
      [apply carries_chain|apply loop_keeps_timer_inv, Hmono|intros _; exact IH].
Qed.

(** Over a whole run, the firings of each timer are spaced by more than its
    period of true time. *)
Lemma run_timer_inv t d n :
  monotone d -> timer_inv t d (world_of (run n d boot)).
Proof.
  intros Hmono. unfold run, bind at 1.
  pose proof (static_init_timer_inv t d) as H0.
  destruct (static_init d boot) as [[] w0|w0]; cbn [world_of] in *; [|exact H0].
  assert (Hrest : respects d (setup ;; ticks n)
                    (carries (timer_inv t d) (timer_inv t d))).
  { apply respects_bind; [apply carries_chain| |intros _].
    - eapply respects_weaken; [apply quiet_keeps_timer_inv | use_timers].
    - apply ticks_keeps_timer_inv, Hmono. }
  specialize (Hrest w0 H0).
  destruct (returned _); exact Hrest.
Qed.

(** *** The pass in which the wrap is noticed *)

Ltac no_fire_chain :=
  apply from_chain, adds_chain; [apply no_fire_nil | apply no_fire_app].

Lemma quiet_carries_timer_at t now (w : World Globals) b (w' : World Globals) :
  quiet not_listen timers w b w' ->
  carries (timer_at t now) (timer_at t now) w b w'.
Proof.
  intros [Hf _] Hat. unfold timers in Hf. split_pair Hf Hg Hp.
  assert (timer_at t now w').
  { unfold timer_at in *. destruct t; cbn [lastFired] in *; congruence. }
  destruct b; assumption.
Qed.

(** A firing of the other timer is no firing of [t]. *)
Lemma no_fire_other t (l1 : list event) e (a b : Z) :
  forallb not_listen l1 = true -> not_listen e = true ->
  first_action t e = false ->
  no_fire t (l1 ++ [e; FonaListen; Millis a; Millis b])%list.
Proof.
  intros Hl1 He Hfa old Hold. rewrite <- app_assoc. cbn [app].
  destruct (fires_after_firing t l1 e a b old Hl1 He Hold) as [Hs Hf].
  rewrite Hfa in Hf. auto.
Qed.

(** With timer [t] at [now] and the clock still reading [now], the step
    that checks [t] finds it not due. *)
Lemma step_of_at_now t fix_ coords d now :
  (forall i, wrap32 (clock d i) = now) ->
  respects d (step_of t fix_ coords)
    (both (carries (timer_at t now) (timer_at t now))
          (from (timer_at t now) (adds (no_fire t)))).
Proof.
  intros Hclock w.
  destruct (step_of_shape t fix_ coords d w)
    as [[Hd ->]|[Hd _]]; cbn [returned world_of].
  - split; [intros Hat; exact Hat|].
    intros Hat. split; [|intros _; exact Hat].
    eexists [_]. split; [reflexivity|]. apply no_listen_no_fire. reflexivity.
  - assert (Hno : timer_at t now w -> False).
    { unfold timer_at. intros E. rewrite Hclock, E, sub32_same in Hd.
      destruct t; cbn in Hd; lia. }
    split; intros Hat; destruct (Hno Hat).
Qed.

(** The step that checks the other timer neither fires [t] nor moves it. *)
Lemma step_of_other_at_now t fix_ coords d now :
  respects d (step_of (other t) fix_ coords)
    (both (carries (timer_at t now) (timer_at t now))
          (from (timer_at t now) (adds (no_fire t)))).
Proof.
  intros w.
  destruct (step_of_shape (other t) fix_ coords d w)
    as [[Hd ->]|[Hd (g' & l1 & e & -> & Hl1 & He & He' & _ & Ht)]];
    cbn [returned world_of].
  - split; [intros Hat; exact Hat|].
    intros Hat. split; [|intros _; exact Hat].
    eexists [_]. split; [reflexivity|]. apply no_listen_no_fire. reflexivity.
  - replace (other (other t)) with t in * by (destruct t; reflexivity).
    assert (Hkeep : timer_at t now w ->
              timer_at t now
                (mkWorld g' (GPS w)
                   (l1 ++ e :: FonaListen
                    :: Millis (wrap32 (clock d (S (List.length (log w)))))
                    :: Millis (wrap32 (clock d (List.length (log w))))
                    :: log w)%list)).
    { unfold timer_at. cbn [globals]. congruence. }
    split; [exact Hkeep|].
    intros Hat. split; [|intros _; exact (Hkeep Hat)].
    eexists (l1 ++ [e; _; _; _])%list. split.
    + unfold extends. cbn [log]. rewrite <- app_assoc. reflexivity.
    + apply no_fire_other;
        [exact Hl1|exact (first_action_not_listen _ e He)|exact He'].
Qed.

Lemma step_at_now t t' fix_ coords d now :
  (forall i, wrap32 (clock d i) = now) ->
  respects d (step_of t' fix_ coords)
    (both (carries (timer_at t now) (timer_at t now))
          (from (timer_at t now) (adds (no_fire t)))).
Proof.
  intros Hclock. destruct t, t';
    first [ apply step_of_at_now, Hclock
          | apply (step_of_other_at_now ReportTimer)
          | apply (step_of_other_at_now PollTimer) ].
Qed.

Ltac at_now_chain :=
  apply both_chain; [apply carries_chain | no_fire_chain].

Lemma quiet_at_now t now (w : World Globals) b (w' : World Globals) :
  quiet not_listen timers w b w' ->
  both (carries (timer_at t now) (timer_at t now))
       (from (timer_at t now) (adds (no_fire t))) w b w'.
Proof.
  intros Hq. split;
    [apply quiet_carries_timer_at, Hq|apply quiet_keeps_timer_at, Hq].
Qed.

Lemma modem_steps_at_now t fix_ coords d now :
  (forall i, wrap32 (clock d i) = now) ->
  respects d (modem_steps fix_ coords)
    (both (carries (timer_at t now) (timer_at t now))
          (from (timer_at t now) (adds (no_fire t)))).
Proof.
  intros Hclock. unfold modem_steps.
  change (poll_commands fix_ coords) with (step_of PollTimer fix_ coords).
  change (periodic_report fix_ coords) with (step_of ReportTimer fix_ coords).
  respects_by ltac:(at_now_chain) ltac:(idtac);
    apply step_at_now, Hclock.
Qed.

(** When [wrap_guard] finds timer [t] ahead of the clock it sets it to the
    clock. *)
Lemma wrap_guard_resets t d now (w : World Globals) :
  (forall i, wrap32 (clock d i) = now) ->
  lastFired t (globals w) > now ->
  returned (wrap_guard d w) = true /\
  timer_at t now (world_of (wrap_guard d w)) /\
  exists l, extends w (world_of (wrap_guard d w)) l /\ no_fire t l.
Proof.
  intros Hclock Hwrap. unfold wrap_guard. run_prims. rewrite !Hclock.
  destruct t; cbn [lastFired] in Hwrap.
  - rewrite (gtb_true _ _ Hwrap). red_prims. rewrite !Hclock.
    destruct (_ >? _); red_prims; rewrite ?Hclock;
      (split; [reflexivity|]); (split; [reflexivity|]);
      [eexists [_; _; _; _; _; _; _]|eexists [_; _; _; _; _; _]];
      (split; [reflexivity|apply no_listen_no_fire; reflexivity]).
  - destruct (_ >? _); red_prims; rewrite ?Hclock;
      rewrite (gtb_true _ _ Hwrap); red_prims; rewrite ?Hclock;
      (split; [reflexivity|]); (split; [reflexivity|]);
      [eexists [_; _; _; _; _; _; _]|eexists [_; _; _; _; _; _]];
      (split; [reflexivity|apply no_listen_no_fire; reflexivity]).
Qed.

Lemma after_wrap_guard_at_now t d now :
  (forall i, wrap32 (clock d i) = now) ->
  respects d
    (fc <- record_coordinates ;; modem_steps (fst fc) (snd fc) ;; alarm)
    (both (carries (timer_at t now) (timer_at t now))
          (from (timer_at t now) (adds (no_fire t)))).
Proof.
  intros Hclock.
  respects_by ltac:(at_now_chain) ltac:(idtac);
    first [ apply modem_steps_at_now, Hclock
          | eapply respects_weaken; [apply quiet_at_now | use_timers] ].
Qed.

(** C3: in a pass that finds timer [t] ahead of the clock (the clock has
    wrapped) while the clock reads [now], the part of [loop] past the
    sentence leaves [t] at [now] and does not fire [t]; and over any run
    against a clock whose true time never goes backwards, however often its
    32-bit reading wraps, any two firings of a timer are more than its period
    of true time apart. *)
Theorem timers_survive_clock_wraparound
    (t : timer_id) d (w : World Globals) (now : Z) d' (n : nat) :
  (forall i, wrap32 (clock d i) = now) ->
  lastFired t (globals w) > now ->
  monotone d' ->
  (lastFired t (globals (world_of (loop_rest d w))) = now /\
   exists l, extends w (world_of (loop_rest d w)) l /\ fires t l = []) /\
  spaced d' (period t) (fires t (log (world_of (run n d' boot)))).
Proof.
  intros Hclock Hwrap Hmono. split.
  - destruct (wrap_guard_resets t d now w Hclock Hwrap)
      as (Hret & Hat & l1 & Hl1 & Hnf1).
    assert (Hrest : loop_rest d w =
      match wrap_guard d w with
      | Done _ w1 =>
          (fc <- record_coordinates ;; modem_steps (fst fc) (snd fc) ;; alarm)
            d w1
      | Hang w1 => Hang w1
      end) by reflexivity.
    rewrite Hrest. clear Hrest.
    destruct (wrap_guard d w) as [[] w1|w1]; [clear Hret|discriminate Hret].
    cbn [world_of] in *.
    destruct (after_wrap_guard_at_now t d now Hclock w1) as [Hkeep Hadd].
    destruct (Hadd Hat) as [(l2 & Hl2 & Hnf2) _].
    split.
    + unfold carries in Hkeep. specialize (Hkeep Hat).
      destruct (returned _); exact Hkeep.
    + exists (l2 ++ l1)%list. unfold extends in *. split.
      * rewrite Hl2, Hl1, app_assoc. reflexivity.
      * destruct (no_fire_app t l1 l2 Hnf1 Hnf2 []) as [_ Hf].
        { unfold settled. cbn. congruence. }
        rewrite app_nil_r in Hf. exact Hf.
  - destruct (run_timer_inv t d' n Hmono) as (_ & k0 & _ & _ & _ & Hsp).
    exact Hsp.
Qed.

(** * Further properties of [Part000] *)

(** ** The alarm *)


(** ** Bringing the modem up *)


(** *** A bring-up that fails is final *)

Lemma modem_calls_quiet (l old : list event) :
  forallb not_modem l = true -> modem_calls (l ++ old)%list = modem_calls old.
Proof.
  unfold modem_calls. induction l as [|e l IH]; [reflexivity|].
  cbn [forallb app filter]. unfold not_modem at 1. intros Hl.
  apply andb_prop in Hl as [He Hl].
  destruct (is_modem e); [discriminate|]. apply IH, Hl.
Qed.

Lemma calm_keeps_modem_untouched (w : World Globals) b (w' : World Globals) :
  both returns (quiet not_modem setup_flag_and_gps) w b w' ->
  carries modem_untouched bringup_gave_up w b w'.
Proof.
  intros [Hb [Hf (l & Hl & Hok)]] [Hs Hm]. unfold returns in Hb. subst b.
  unfold setup_flag_and_gps in Hf. split_pair Hf Hs' Hg. unfold extends in Hl.
  unfold modem_untouched. rewrite Hl, (modem_calls_quiet _ _ Hok).
  split; congruence.
Qed.

Lemma receive_sentence_no_modem d :
  respects d receive_sentence (both returns (quiet not_modem setup_flag)).
Proof. open_blocks. calm_steps. Qed.

Lemma receive_sentence_keeps_modem_untouched d :
  respects d receive_sentence (carries modem_untouched bringup_gave_up).
Proof.
  intros w [Hs Hm].
  destruct (receive_sentence_no_modem d w) as [Hb [Hf (l & Hl & Hok)]].
  unfold returns in Hb. rewrite Hb. unfold setup_flag in Hf.
  unfold extends in Hl. unfold modem_untouched.
  rewrite Hl, (modem_calls_quiet _ _ Hok). split; congruence.
Qed.

Lemma record_coordinates_gives_up d :
  (forall i, fona_begin d i = false) ->
  respects d record_coordinates (carries modem_untouched bringup_gave_up).
Proof.
  intros Hfail w [Hs Hm]. unfold carries, modem_untouched, bringup_gave_up.
  unfold record_coordinates, setupFONA. exec.
  destruct (gps_fix (GPS w)); exec.
  - rewrite Hs. exec. rewrite Hfail. exec.
    split; [exact Hs|]. unfold modem_calls in *. cbn [filter is_modem].
    rewrite Hm. reflexivity.
  - split; [exact Hs|]. unfold modem_calls in *. cbn [filter is_modem].
    exact Hm.
Qed.

Lemma modem_steps_skipped d fix_ coords :
  respects d (modem_steps fix_ coords) (carries modem_untouched bringup_gave_up).
Proof.
  intros w [Hs Hm]. unfold carries, modem_untouched.
  unfold modem_steps. exec. rewrite Hs. exec. split; assumption.
Qed.

Lemma loop_gives_up d :
  (forall i, fona_begin d i = false) ->
  respects d loop (carries modem_untouched bringup_gave_up).
Proof.
  intros Hfail. unfold loop, loop_rest.
  respects_by ltac:(apply carries_chain) ltac:(idtac);
    lazymatch goal with
    | |- respects _ record_coordinates _ =>
        apply record_coordinates_gives_up, Hfail
    | |- respects _ (modem_steps _ _) _ => apply modem_steps_skipped
    | |- respects _ receive_sentence _ =>
        apply receive_sentence_keeps_modem_untouched
    | |- respects _ hand_query _ =>
        eapply respects_weaken;
          [apply calm_keeps_modem_untouched | apply hand_query_no_modem]
    | |- respects _ wrap_guard _ =>
        eapply respects_weaken;
          [apply calm_keeps_modem_untouched | apply wrap_guard_no_modem]
    | |- respects _ alarm _ =>
        eapply respects_weaken;
          [apply calm_keeps_modem_untouched | apply alarm_no_modem]
    end.
Qed.

Lemma run_gives_up d (n : nat) :
  (forall i, fona_begin d i = false) ->
  respects d (run n) (carries modem_untouched bringup_gave_up).
Proof.
  intros Hfail. unfold run.
  apply respects_bind; [apply carries_chain| |intros _].
  { eapply respects_weaken;
      [apply calm_keeps_modem_untouched | apply static_init_no_modem]. }
  apply respects_bind; [apply carries_chain| |intros _].
  { eapply respects_weaken;
      [apply calm_keeps_modem_untouched | apply setup_no_modem]. }
  induction n as [|n IH]; cbn [ticks].
  - apply respects_ret, carries_chain.
  - apply respects_bind;
      [apply carries_chain|apply loop_gives_up, Hfail|intros _; exact IH].
Qed.

(** X3: When the modem never answers [fona.begin], a run of any length either is
    still waiting for its first fix, with no modem call made, or has stopped
    for good in [setupFONA]: then the only modem calls ever made are
    [fonaSS.begin(9600)] and the failed [fona.begin], and no message count,
    fetch or send follows.  [fonaSetup] stays false throughout. *)
Theorem failed_bringup_is_final d (n : nat) :
  (forall i, fona_begin d i = false) ->
  let r := run n d boot in
  fonaSetup (globals (world_of r)) = false /\
  if returned r
  then modem_calls (log (world_of r)) = []
  else modem_calls (log (world_of r)) = [FonaBegin false; FonaSSBegin 9600].
Proof.
  intros Hfail r. subst r.
  pose proof (run_gives_up d n Hfail boot) as Hrun. unfold carries in Hrun.
  specialize (Hrun (conj eq_refl eq_refl)).
  destruct (returned (run n d boot)); destruct Hrun as [Hs Hm]; auto.
Qed.

(** ** The hand query of the GPS *)

Lemma hand_query_interrupt_on d :
  respects d hand_query (from interrupt_on (quiet not_hand_read interrupt_flag)).
Proof.
  intros w Hon. unfold interrupt_on in Hon. unfold hand_query. exec.
  rewrite Hon. exec. split; [|intros _; exact Hon].
  split; [reflexivity|]. eexists [_]. split; reflexivity.
Qed.

Lemma loop_rest_no_hand_read d :
  respects d loop_rest (quiet not_hand_read interrupt_flag).
Proof. open_blocks. quiet_steps. Qed.

Lemma receive_sentence_no_hand_read d :
  respects d receive_sentence (quiet not_hand_read interrupt_flag).
Proof. open_blocks. quiet_steps. Qed.

Lemma quiet_from_interrupt_on (w : World Globals) b (w' : World Globals) :
  quiet not_hand_read interrupt_flag w b w' ->
  from interrupt_on (quiet not_hand_read interrupt_flag) w b w'.
Proof.
  intros Hq Hon. split; [exact Hq|]. intros _.
  destruct Hq as [Hf _]. unfold interrupt_on, interrupt_flag in *. congruence.
Qed.

Lemma loop_no_hand_read d :
  respects d loop (from interrupt_on (quiet not_hand_read interrupt_flag)).
Proof.
  unfold loop.
  respects_by ltac:(apply from_chain, quiet_chain) ltac:(idtac);
    lazymatch goal with
    | |- respects _ hand_query _ => apply hand_query_interrupt_on
    | |- respects _ receive_sentence _ =>
        eapply respects_weaken;
          [apply quiet_from_interrupt_on | apply receive_sentence_no_hand_read]
    | |- respects _ loop_rest _ =>
        eapply respects_weaken;
          [apply quiet_from_interrupt_on | apply loop_rest_no_hand_read]
    end.
Qed.

Lemma ticks_no_hand_read d (n : nat) :
  respects d (ticks n) (from interrupt_on (quiet not_hand_read interrupt_flag)).
Proof.
  induction n as [|n IH]; cbn [ticks].
  - apply respects_ret, from_chain, quiet_chain.
  - apply respects_bind;
      [apply from_chain, quiet_chain|apply loop_no_hand_read|intros _; exact IH].
Qed.

(** X4: [setup()] turns the interrupt on and nothing turns it off: in a run of
    any length [loop] never reads the GPS by hand and never echoes a GPS
    character on the serial monitor, and [usingInterrupt] is true after
    every pass. *)
Theorem gps_never_read_by_hand d (n : nat) :
  let r := run n d boot in
  forallb not_hand_read (log (world_of r)) = true /\
  (returned r = true -> usingInterrupt (globals (world_of r)) = true).
Proof.
  intros r. subst r. unfold run.
  assert (Hstart : exists w0 : World Globals,
            (static_init ;; setup) d boot = Done tt w0 /\
            interrupt_on w0 /\ forallb not_hand_read (log w0) = true).
  { unfold static_init, setup, useInterrupt. exec.
    eexists. split; [reflexivity|]. split; reflexivity. }
  destruct Hstart as (w0 & Hrun & Hon & Hlog).
  assert (Hsplit : (static_init ;; setup ;; ticks n) d boot =
            match (static_init ;; setup) d boot with
            | Done _ w => ticks n d w
            | Hang w => Hang w
            end).
  { unfold bind. destruct (static_init d boot) as [[] ?|?]; reflexivity. }
  rewrite Hsplit, Hrun. clear Hsplit Hrun.
  destruct (ticks_no_hand_read d n w0 Hon) as [[Hf (l & Hl & Hok)] Hkeep].
  unfold extends in Hl. split.
  - rewrite Hl, forallb_app, Hok, Hlog. reflexivity.
  - exact Hkeep.
Qed.

(** ** The timers when the clock has not wrapped *)

(** X5: With the clock reading [now] and neither timer ahead of it (equal
    counts as not ahead), [wrap_guard] changes no variable: it reads the
    clock three times and prints the time elapsed on the report timer
    followed by "/300000". *)
Theorem wrap_guard_leaves_timers_not_ahead d (w : World Globals) (now : Z) :
  (forall i, wrap32 (clock d i) = now) ->
  gpsTimer (globals w) <= now ->
  fonaTimer (globals w) <= now ->
  wrap_guard d w =
  Done tt (mkWorld (globals w) (GPS w)
    (SerialPrint "/300000"
     :: SerialPrintNum (sub32 now (gpsTimer (globals w)))
     :: Millis now :: Millis now :: Millis now :: log w)).
Proof.
  intros Hclock Hg Hf. unfold wrap_guard. exec. rewrite !Hclock.
  rewrite (gtb_false _ _ Hg). exec. rewrite !Hclock.
  rewrite (gtb_false _ _ Hf). exec. rewrite !Hclock. reflexivity.
Qed.

(** X6: Both timer steps are paced the same way: with the clock reading [now],
    the step of timer [t] (2000 ms for the command poll, 300000 ms for the
    report) does nothing but read the clock while the elapsed time is at
    most the period, the period itself included; once it exceeds the period
    the step stores [now] in its timer, selects the modem's serial port and
    makes its modem call, and a second check at the same clock value finds
    it not due. *)
Theorem timer_step_due_iff_elapsed_exceeds_period
    (t : timer_id) d (w : World Globals) (fix_ : bool) (coordinates : string)
    (now : Z) :
  (forall i, wrap32 (clock d i) = now) ->
  let r := step_of t fix_ coordinates d w in
  returned r = true /\
  (sub32 now (lastFired t (globals w)) <= period t ->
   r = Done tt (mkWorld (globals w) (GPS w) (Millis now :: log w))) /\
  (sub32 now (lastFired t (globals w)) > period t ->
   lastFired t (globals (world_of r)) = now /\
   lastFired (other t) (globals (world_of r)) = lastFired (other t) (globals w) /\
   (exists l e, log (world_of r) =
                  (l ++ e :: FonaListen :: Millis now :: Millis now :: log w)%list
                /\ first_action t e = true) /\
   step_of t fix_ coordinates d (world_of r) =
     Done tt (mkWorld (globals (world_of r)) (GPS (world_of r))
                (Millis now :: log (world_of r)))).
Proof.
  intros Hclock r. subst r.
  destruct (step_of_shape t fix_ coordinates d w)
    as [[Hd E]|[Hd (g' & l1 & e & E & Hl1 & He & _ & Ht & Hother)]];
    rewrite E; rewrite !Hclock in *; cbn [returned world_of globals GPS log].
  - split; [reflexivity|]. split; [reflexivity|]. intros; lia.
  - split; [reflexivity|]. split; [intros; lia|]. intros _.
    split; [exact Ht|]. split; [exact Hother|].
    split; [exists l1, e; auto|].
    match goal with |- step_of t _ _ d ?w2 = _ =>
      destruct (step_of_shape t fix_ coordinates d w2)
        as [[_ E2]|[Hd2 _]] end.
    + rewrite E2, Hclock. reflexivity.
    + exfalso. cbn [globals] in Hd2. rewrite Hclock, Ht, sub32_same in Hd2.
      destruct t; cbn in Hd2; lia.
Qed.

(** ** Messages the sketch does not answer *)

(** X7: A poll that is told a count not above the baseline (the same count,
    a lower one after messages were deleted, or the driver's error value
    -1) asks the count at most once and is done: nothing is fetched,
    nothing is sent, and the baseline and the alarm flag are as before. *)
Theorem poll_ignores_count_not_above_baseline
    d (w : World Globals) (fix_ : bool) (coordinates : string) :
  (forall i, wrap_int8 (fona_getNumSMS d i) <= startSMS (globals w)) ->
  let r := poll_commands fix_ coordinates d w in
  returned r = true /\
  startSMS (globals (world_of r)) = startSMS (globals w) /\
  beeping (globals (world_of r)) = beeping (globals w) /\
  sms_read (log (world_of r)) = sms_read (log w) /\
  sms_sent (log (world_of r)) = sms_sent (log w).
Proof.
  intros Hc r. subst r.
  destruct (poll_commands_quiet fix_ coordinates d w Hc)
    as (l & E & Hread & Hsent).
  rewrite E. cbn [returned world_of globals log].
  rewrite sms_read_app, sms_sent_app, Hread, Hsent.
  split; [reflexivity|].
  destruct (_ >? _); cbn [startSMS beeping set_fonaTimer]; auto.
Qed.

(** X8: A new message that cannot be read is lost.  With no stored text
    longer than [replybuffer] takes and the modem reporting the same count
    [c] each time it is asked: when a due poll finds [c] above the baseline
    but [fona.readSMS] fails, or it succeeds and [fona.getSMSSender] fails,
    the baseline has already been moved to [c], no reply is sent and the
    alarm flag is untouched (and with the baseline at [c], X7 says a later
    poll told [c] does not fetch the message again). *)
Theorem unreadable_message_is_dropped
    d (w : World Globals) (fix_ : bool) (coordinates : string) (c : Z) :
  texts_fit_replybuffer d ->
  sub32 (wrap32 (clock d (List.length (log w)))) (fonaTimer (globals w)) > 2000 ->
  (forall i, wrap_int8 (fona_getNumSMS d i) = c) ->
  c > startSMS (globals w) ->
  (forall i, fona_readSMS d i = None) \/ (forall i, fona_getSMSSender d i = None) ->
  let r := poll_commands fix_ coordinates d w in
  returned r = true /\
  startSMS (globals (world_of r)) = c /\
  beeping (globals (world_of r)) = beeping (globals w) /\
  sms_sent (log (world_of r)) = sms_sent (log w).
Proof.
  intros _ Hdue Hcount Hnew Hfail r. subst r.
  unfold poll_commands. exec.
  rewrite (gtb_true _ _ Hdue). exec.
  rewrite Hcount, (gtb_true _ _ Hnew). exec. rewrite Hcount.
  destruct Hfail as [Hread|Hsender].
  - rewrite Hread. exec. repeat split.
  - destruct (fona_readSMS d _) as [text|]; exec; [|repeat split].
    rewrite Hsender. exec. repeat split.
Qed.

(** ** What moves the alarm flag *)

Lemma alarm_only_by_message_chain : chain alarm_only_by_message.
Proof.
  split; unfold alarm_only_by_message, alarm_follows_fetch, extends.
  - intros w. exists []. split; [reflexivity|]. reflexivity.
  - intros w w1 b w2 (l1 & L1 & A1) (l2 & L2 & A2).
    exists (l2 ++ l1)%list. split; [rewrite L2, L1, app_assoc; reflexivity|].
    rewrite sms_read_app. intros Hnil. apply app_eq_nil in Hnil as [H2 H1].
    rewrite (A2 H2). apply A1, H1.
Qed.

Lemma quiet_alarm_only_by_message (w : World Globals) b (w' : World Globals) :
  quiet not_fetch alarm_flag w b w' -> alarm_only_by_message w b w'.
Proof.
  intros [Hf (l & Hl & _)]. exists l. split; [exact Hl|].
  intros _. exact Hf.
Qed.

Lemma hand_query_alarm_flag d :
  respects d hand_query (quiet not_fetch alarm_flag).
Proof. open_blocks. quiet_steps. Qed.

Lemma receive_sentence_alarm_flag d :
  respects d receive_sentence (quiet not_fetch alarm_flag).
Proof. open_blocks. quiet_steps. Qed.

Lemma wrap_guard_alarm_flag d :
  respects d wrap_guard (quiet not_fetch alarm_flag).
Proof. open_blocks. quiet_steps. Qed.

Lemma record_coordinates_alarm_flag d :
  respects d record_coordinates (quiet not_fetch alarm_flag).
Proof. open_blocks. quiet_steps. Qed.

Lemma periodic_report_alarm_flag d fix_ coords :
  respects d (periodic_report fix_ coords) (quiet not_fetch alarm_flag).
Proof. open_blocks. quiet_steps. Qed.

Lemma alarm_alarm_flag d :
  respects d alarm (quiet not_fetch alarm_flag).
Proof. open_blocks. quiet_steps. Qed.

Lemma poll_commands_alarm_only_by_message d fix_ coords :
  respects d (poll_commands fix_ coords) alarm_only_by_message.
Proof.
  intros w. unfold alarm_only_by_message, alarm_follows_fetch.
  unfold poll_commands. exec.
  destruct (_ >? _); exec.
  - destruct (_ >? _); exec.
    + destruct (fona_readSMS d _) as [text|]; exec.
      * destruct (fona_getSMSSender d _) as [phone|]; exec.
        -- match goal with |- context [command ?f ?c ?p ?a ?d ?w] =>
             destruct (command_shape f c p a d w)
               as (msg & txt & ok & b & ->) end.
           exec.
           eexists (_ :: _ :: _ :: _ :: _ :: _ :: _ :: _ :: _ :: _ :: _ :: []).
           split; [reflexivity|]. cbn [sms_read]. discriminate.
        -- eexists (_ :: _ :: _ :: _ :: _ :: _ :: _ :: _ :: []).
           split; [reflexivity|]. cbn [sms_read]. discriminate.
      * eexists (_ :: _ :: _ :: _ :: _ :: _ :: _ :: []).
        split; [reflexivity|]. cbn [sms_read]. discriminate.
    + eexists (_ :: _ :: _ :: _ :: _ :: []).
      split; [reflexivity|]. reflexivity.
  - eexists (_ :: []). split; [reflexivity|]. reflexivity.
Qed.

Lemma loop_alarm_only_by_message d :
  respects d loop alarm_only_by_message.
Proof.
  unfold loop, loop_rest, modem_steps.
  respects_by ltac:(apply alarm_only_by_message_chain) ltac:(idtac);
    lazymatch goal with
    | |- respects _ (poll_commands _ _) _ =>
        apply poll_commands_alarm_only_by_message
    | |- _ =>
        eapply respects_weaken;
          [ apply quiet_alarm_only_by_message
          | lazymatch goal with
            | |- respects _ hand_query _ => apply hand_query_alarm_flag
            | |- respects _ receive_sentence _ =>
                apply receive_sentence_alarm_flag
            | |- respects _ wrap_guard _ => apply wrap_guard_alarm_flag
            | |- respects _ record_coordinates _ =>
                apply record_coordinates_alarm_flag
            | |- respects _ (periodic_report _ _) _ =>
                apply periodic_report_alarm_flag
            | |- respects _ alarm _ => apply alarm_alarm_flag
            end ]
    end.
Qed.

(** X10: The alarm flag moves only on a message: a pass of [loop] that fetches no
    message from the modem leaves [beeping] as it was, whatever the devices
    answer. *)
Theorem alarm_flag_moves_only_on_a_message d (w : World Globals) :
  sms_read (log (world_of (loop d w))) = sms_read (log w) ->
  beeping (globals (world_of (loop d w))) = beeping (globals w).
Proof.
  intros Hread.
  destruct (loop_alarm_only_by_message d w) as (l & Hl & Hkeep).
  apply Hkeep. unfold extends in Hl. rewrite Hl, sms_read_app in Hread.
  destruct (sms_read l) as [|x r]; [reflexivity|].
  apply (f_equal (@List.length _)) in Hread.
  rewrite length_app in Hread. cbn in Hread. lia.
Qed.

(** ** Which serial port is selected *)

Lemma listens_first_nil : listens_first [].
Proof. left. reflexivity. Qed.

Lemma listens_first_app (l1 l2 : list event) :
  listens_first l1 -> listens_first l2 -> listens_first (l2 ++ l1)%list.
Proof.
  unfold listens_first, modem_calls. rewrite filter_app.
  intros [E1|(m1 & E1)] H2; rewrite E1.
  - rewrite app_nil_r. exact H2.
  - right. exists (filter is_modem l2 ++ m1)%list. rewrite app_assoc. reflexivity.
Qed.

Lemma no_modem_listens_first (l : list event) :
  forallb not_modem l = true -> listens_first l.
Proof.
  intros Hl. left. pose proof (modem_calls_quiet l [] Hl) as E.
  rewrite app_nil_r in E. exact E.
Qed.

Ltac listens_chain :=
  apply from_chain, adds_chain; [apply listens_first_nil | apply listens_first_app].

Lemma calm_listens_first (w : World Globals) b (w' : World Globals) :
  both returns (quiet not_modem setup_flag_and_gps) w b w' ->
  from is_up (adds listens_first) w b w'.
Proof.
  intros [_ [Hf (l & Hl & Hok)]] Hup. unfold setup_flag_and_gps in Hf.
  split_pair Hf Hs Hg. split.
  - exists l. split; [exact Hl|apply no_modem_listens_first, Hok].
  - intros _. unfold is_up in *. congruence.
Qed.

Lemma receive_sentence_listens_first d :
  respects d receive_sentence (from is_up (adds listens_first)).
Proof.
  intros w Hup.
  destruct (receive_sentence_no_modem d w) as [_ [Hf (l & Hl & Hok)]].
  unfold setup_flag in Hf. split.
  - exists l. split; [exact Hl|apply no_modem_listens_first, Hok].
  - intros _. unfold is_up in *. congruence.
Qed.

Lemma record_coordinates_listens_first d :
  respects d record_coordinates (from is_up (adds listens_first)).
Proof.
  intros w Hup.
  destruct (record_coordinates_stays_up d w Hup) as [[Hret _] Hkeep].
  split; [|exact Hkeep]. clear Hret Hkeep. unfold is_up in Hup.
  unfold record_coordinates. exec.
  destruct (gps_fix (GPS w)); exec.
  - rewrite Hup. exec. eexists [_; _].
    split; [reflexivity|apply no_modem_listens_first; reflexivity].
  - eexists [_]. split; [reflexivity|apply no_modem_listens_first; reflexivity].
Qed.

Lemma step_of_keeps_setup_flag t fix_ coords d :
  respects d (step_of t fix_ coords) (quiet not_bringup setup_flag).
Proof. destruct t; unfold step_of; open_blocks; quiet_steps. Qed.

Lemma first_action_is_modem t e : first_action t e = true -> is_modem e = true.
Proof. destruct t, e; cbn; congruence. Qed.

(** A timer step speaks to the modem only after [fonaSS.listen()]. *)
Lemma step_of_listens_first t fix_ coords d :
  respects d (step_of t fix_ coords) (from is_up (adds listens_first)).
Proof.
  intros w Hup. split.
  - destruct (step_of_shape t fix_ coords d w)
      as [[_ ->]|[_ (g' & l1 & e & -> & _ & He & _)]]; cbn [world_of].
    + eexists [_]. split; [reflexivity|apply no_modem_listens_first; reflexivity].
    + eexists (l1 ++ [e; _; _; _])%list. split.
      * unfold extends. cbn [log]. rewrite <- app_assoc. reflexivity.
      * right. exists (modem_calls l1 ++ [e])%list.
        unfold modem_calls. rewrite filter_app. cbn [filter is_modem].
        rewrite (first_action_is_modem t e He), <- app_assoc. reflexivity.
  - intros _. destruct (step_of_keeps_setup_flag t fix_ coords d w) as [Hf _].
    unfold setup_flag in Hf. unfold is_up in *. congruence.
Qed.

Lemma modem_steps_listens_first d fix_ coords :
  respects d (modem_steps fix_ coords) (from is_up (adds listens_first)).
Proof.
  unfold modem_steps.
  change (poll_commands fix_ coords) with (step_of PollTimer fix_ coords).
  change (periodic_report fix_ coords) with (step_of ReportTimer fix_ coords).
  respects_by ltac:(listens_chain) ltac:(idtac); apply step_of_listens_first.
Qed.

Lemma loop_listens_first d :
  respects d loop (from is_up (adds listens_first)).
Proof.
  unfold loop, loop_rest.
  respects_by ltac:(listens_chain) ltac:(idtac);
    lazymatch goal with
    | |- respects _ receive_sentence _ => apply receive_sentence_listens_first
    | |- respects _ record_coordinates _ => apply record_coordinates_listens_first
    | |- respects _ (modem_steps _ _) _ => apply modem_steps_listens_first
    | |- respects _ hand_query _ =>
        eapply respects_weaken;
          [apply calm_listens_first | apply hand_query_no_modem]
    | |- respects _ wrap_guard _ =>
        eapply respects_weaken;
          [apply calm_listens_first | apply wrap_guard_no_modem]
    | |- respects _ alarm _ =>
        eapply respects_weaken;
          [apply calm_listens_first | apply alarm_no_modem]
    end.
Qed.

Lemma after_hand_query_extends d :
  respects d (quit <- receive_sentence ;; if quit then ret tt else loop_rest)
           (quiet any_event no_observation).
Proof. open_blocks. quiet_steps. Qed.

Lemma loop_extends d : respects d loop (quiet any_event no_observation).
Proof. open_blocks. quiet_steps. Qed.

(** X11: Every pass of [loop], from whatever state, starts by selecting the GPS
    serial port; and in a pass that starts with the modem up, whatever is
    said to the modem (count, fetch, sender, send) comes after a
    [fonaSS.listen()] made earlier in the same pass. *)
Theorem modem_calls_follow_listen d (w : World Globals) :
  exists l,
    extends w (world_of (loop d w)) l /\
    selects_gps_first l /\
    (fonaSetup (globals w) = true -> listens_first l).
Proof.
  destruct (loop_extends d w) as [_ (l & Hl & _)].
  exists l. split; [exact Hl|]. split.
  2:{ intros Hup.
      destruct (loop_listens_first d w Hup) as [(l' & Hl' & Hfirst) _].
      unfold extends in Hl, Hl'. rewrite Hl in Hl'.
      apply app_inv_tail in Hl'. rewrite Hl'. exact Hfirst. }
  unfold extends in Hl.
  assert (Hloop : loop d w =
    match hand_query d w with
    | Done _ w1 =>
        (quit <- receive_sentence ;; if quit then ret tt else loop_rest) d w1
    | Hang w1 => Hang w1
    end) by reflexivity.
  assert (Hq : exists l1, log (world_of (hand_query d w)) =
                          (l1 ++ GpsListen :: log w)%list).
  { unfold hand_query. exec. destruct (negb _); exec; [|exists []; reflexivity].
    destruct (negb _); exec; [eexists [_; _]|eexists [_]]; reflexivity. }
  destruct Hq as (l1 & Hl1). rewrite Hloop in Hl.
  destruct (hand_query d w) as [[] w1|w1]; cbn [world_of] in *.
  - destruct (after_hand_query_extends d w1) as [_ (l2 & Hl2 & _)].
    unfold extends in Hl2. rewrite Hl2, Hl1 in Hl.
    exists (l2 ++ l1)%list.
    apply (app_inv_tail (log w)). rewrite <- Hl, <- !app_assoc. reflexivity.
  - rewrite Hl1 in Hl. exists l1.
    apply (app_inv_tail (log w)). rewrite <- Hl, <- !app_assoc. reflexivity.
Qed.

(** X9: When the count has grown by more than one since the last poll, only the
    newest message is fetched.  With no stored text longer than
    [replybuffer] takes and the modem reporting the same count [c] each time
    it is asked: a due poll that finds [c] above the baseline fetches the one
    message stored at index [c] (as an 8-bit index) and moves the baseline
    to [c], so the messages between the old baseline and [c] are never
    fetched. *)
Theorem poll_fetches_only_the_newest
    d (w : World Globals) (fix_ : bool) (coordinates : string) (c : Z) :
  texts_fit_replybuffer d ->
  sub32 (wrap32 (clock d (List.length (log w)))) (fonaTimer (globals w)) > 2000 ->
  (forall i, wrap_int8 (fona_getNumSMS d i) = c) ->
  c > startSMS (globals w) ->
  exists l,
    extends w (world_of (poll_commands fix_ coordinates d w)) l /\
    read_indices l = [wrap_uint8 c] /\
    startSMS (globals (world_of (poll_commands fix_ coordinates d w))) = c.
Proof.
  intros _ Hdue Hcount Hnew.
  unfold poll_commands. exec.
  rewrite (gtb_true _ _ Hdue). exec.
  rewrite Hcount, (gtb_true _ _ Hnew). exec. rewrite Hcount.
  destruct (fona_readSMS d _) as [text|]; exec.
  - destruct (fona_getSMSSender d _) as [phone|]; exec.
    + match goal with |- context [command ?f ?c ?p ?a ?d ?w] =>
        destruct (command_shape f c p a d w) as (msg & txt & ok & b & ->) end.
      exec. eexists (_ :: _ :: _ :: _ :: _ :: _ :: _ :: _ :: _ :: _ :: _ :: []).
      split; [reflexivity|]. split; reflexivity.
    + eexists (_ :: _ :: _ :: _ :: _ :: _ :: _ :: _ :: []).
      split; [reflexivity|]. split; reflexivity.
  - eexists (_ :: _ :: _ :: _ :: _ :: _ :: _ :: []).
    split; [reflexivity|]. split; reflexivity.
Qed.

End Part000Facts.

(** * Keywords *)

Section Keywords.






Lemma tolower_idempotent (c : ascii) : tolower (tolower c) = tolower c.
Proof. destruct c as [[] [] [] [] [] [] [] []]; reflexivity. Qed.


(** Lowercasing twice is lowercasing once. *)
Lemma toLowerCase_idempotent (s : string) :
  toLowerCase (toLowerCase s) = toLowerCase s.
Proof.
  induction s as [|c s IH]; [reflexivity|]. cbn [toLowerCase].
  rewrite tolower_idempotent, IH. reflexivity.
Qed.

End Keywords.

(** * Properties of [Tracker] *)

Section TrackerFacts.
Context `{FloatFormat}.
Import Tracker.

Ltac texec :=
  unfold fona_sendSMS_call, fona_getNumSMS_call,
    fona_readSMS_call, fona_getSMSSender_call, fona_begin_call,
    GPS_parse, GPS_newNMEAreceived, GPS_read, gpsSS_listen, fonaSS_listen,
    fonaSS_begin, GPS_begin, GPS_sendCommand, millis, delay, tone, noTone,
    Serial_begin, Serial_println, Serial_printnum, Serial_printchar,
    pinMode_OUTPUT, when, bind, ret, gets, modify, emit, ask, getGPS,
    putGPS, hang;
  cbn [globals GPS log world_of returned fst snd for_each option_map negb
       List.length replybuffer beeping startSMS usingInterrupt timer
       set_replybuffer set_beeping set_startSMS set_usingInterrupt set_timer].

Ltac topen :=
  unfold loop, loop_rest, hand_query, receive_sentence, wrap_guard,
    record_coordinates, poll_commands, periodic_report, alarm, command,
    setup, static_init, useInterrupt;
  open_prims.


(** [readSMS] never stores more than [maxlen + 1] bytes. *)
Lemma readSMS_bytes_bound (maxlen : Z) (msg : string) :
  0 <= maxlen -> readSMS_bytes maxlen msg <= maxlen + 1.
Proof.
  intros Hm. unfold readSMS_bytes, readSMS_text, strlen.
  assert (Hlen : forall (s : string) (n : nat),
            (String.length (substring 0 n s) <= n)%nat).
  { induction s as [|c s IH]; intros [|n]; cbn; try lia.
    specialize (IH n). lia. }
  specialize (Hlen msg (Z.to_nat maxlen)). lia.
Qed.

(** In [tracker.ino] the buffer (255 bytes) holds whatever a read with the
    250-character limit stores. *)
Lemma tracker_readSMS_fits_replybuffer (msg : string) :
  readSMS_bytes 250 msg <= Tracker.replybuffer_size.
Proof.
  pose proof (readSMS_bytes_bound 250 msg). unfold Tracker.replybuffer_size. lia.
Qed.

(** ** The command dispatch of [tracker.ino] *)

(** In [tracker.ino] the dispatch hands the modem exactly one message, to the
    sender, and writes nothing on the serial monitor: the coordinates or
    "NO GPS FIX" for "gps", "BEEPING ON"/"BEEPING OFF" for "beep" with the
    alarm flag flipped, "INVALID COMMAND" for anything else; no variable but
    [beeping] changes, and [beeping] only for "beep". *)
Theorem tracker_command_replies
    (fix_ : bool) (coordinates phoneNum analyze : string) d
    (w : World Globals) :
  let toggles := String.eqb analyze "beep" && negb (String.eqb analyze "gps") in
  let reply :=
    if String.eqb analyze "gps"
    then (if fix_ then coordinates else "NO GPS FIX")
    else if String.eqb analyze "beep"
         then (if beeping (globals w) then "BEEPING OFF" else "BEEPING ON")
         else "INVALID COMMAND" in
  command fix_ coordinates phoneNum analyze d w =
  Done tt (mkWorld
    (if toggles then set_beeping (negb (beeping (globals w))) (globals w)
     else globals w)
    (GPS w)
    (FonaSendSMS phoneNum reply (fona_sendSMS d (List.length (log w)))
     :: log w)).
Proof.
  cbv zeta. unfold command.
  destruct (String.eqb analyze "gps"); cbn [andb negb].
  - rewrite andb_false_r. destruct fix_; texec; reflexivity.
  - rewrite andb_true_r. destruct (String.eqb analyze "beep"); texec.
    + destruct (beeping (globals w)); texec; reflexivity.
    + reflexivity.
Qed.

(** ** The message buffer of [tracker.ino] *)

Lemma tracker_loop_reads_fit d :
  respects d loop (quiet (read_fits replybuffer_size) tracker_no_observation).
Proof. topen. quiet_steps. Qed.

Lemma tracker_static_init_reads_fit d :
  respects d static_init
           (quiet (read_fits replybuffer_size) tracker_no_observation).
Proof. topen. quiet_steps. Qed.

Lemma tracker_setup_reads_fit d :
  respects d setup (quiet (read_fits replybuffer_size) tracker_no_observation).
Proof. topen. cbn match. quiet_steps. Qed.

Lemma tracker_ticks_reads_fit d (n : nat) :
  respects d (ticks n) (quiet (read_fits replybuffer_size) tracker_no_observation).
Proof.
  induction n as [|n IH]; cbn [ticks].
  - apply respects_ret, quiet_chain.
  - apply respects_bind;
      [apply quiet_chain|apply tracker_loop_reads_fit|intros _; exact IH].
Qed.

(** X13: In a run of [tracker.ino] of any length, every message read asks for a
    number of characters that fits the 255-byte [replybuffer] together with
    the terminating NUL, so whatever message the modem holds, the bytes
    stored stay inside the buffer. *)
Theorem tracker_reads_stay_in_replybuffer d (n : nat) :
  forall (i maxlen : Z) (msg : string),
    In (FonaReadSMS i maxlen (Some msg)) (log (world_of (run n d boot))) ->
    0 <= maxlen /\ readSMS_bytes maxlen msg <= replybuffer_size.
Proof.
  intros i maxlen msg Hin.
  assert (Hrun : respects d (run n)
            (quiet (read_fits replybuffer_size) tracker_no_observation)).
  { unfold run.
    apply respects_bind;
      [apply quiet_chain|apply tracker_static_init_reads_fit|intros _].
    apply respects_bind;
      [apply quiet_chain|apply tracker_setup_reads_fit|intros _].
    apply tracker_ticks_reads_fit. }
  destruct (Hrun boot) as [_ (l & Hl & Hok)].
  unfold extends in Hl. cbn [log boot] in Hl. rewrite app_nil_r in Hl.
  rewrite Hl in Hin. rewrite forallb_forall in Hok.
  specialize (Hok _ Hin). cbn [read_fits] in Hok.
  apply andb_prop in Hok as [H0 H1].
  apply Z.leb_le in H0, H1. split; [exact H0|].
  pose proof (readSMS_bytes_bound maxlen msg H0). lia.
Qed.

(** ** Bring-up and polling in [tracker.ino] *)

Lemma tracker_ticks_extend d (n : nat) :
  respects d (ticks n) (quiet any_event tracker_no_observation).
Proof.
  induction n as [|n IH]; cbn [ticks].
  - apply respects_ret, quiet_chain.
  - apply respects_bind; [apply quiet_chain| |intros _; exact IH].
    topen. quiet_steps.
Qed.

(** Computes a program started from a given world. *)
Ltac tcompute :=
  cbv beta iota zeta delta
    [static_init setup useInterrupt boot
     fona_sendSMS_call fona_getNumSMS_call
     fona_readSMS_call fona_getSMSSender_call fona_begin_call
     GPS_parse GPS_newNMEAreceived GPS_read gpsSS_listen fonaSS_listen
     fonaSS_begin GPS_begin GPS_sendCommand millis delay tone noTone
     Serial_begin Serial_println Serial_printnum Serial_printchar
     pinMode_OUTPUT when bind ret gets modify emit ask getGPS
     putGPS hang for_each option_map negb
     globals GPS log world_of returned fst snd List.length
     replybuffer beeping startSMS usingInterrupt timer
     set_replybuffer set_beeping set_startSMS set_usingInterrupt set_timer].

(** What the static initialiser and [setup()] leave behind. *)
Lemma tracker_startup d :
  exists rest,
    world_of ((static_init ;; setup) d boot) =
      mkWorld
        (if fona_begin d 9
         then mkGlobals "" false (wrap_int8 (fona_getNumSMS d 10)) true
                        (wrap32 (clock d 0))
         else mkGlobals "" false 0 true (wrap32 (clock d 0)))
        GPS_init
        (rest ++
         [FonaBegin (fona_begin d 9); FonaSSBegin 4800; PinModeOutput BUZZ_PIN;
          UseInterrupt true; GpsSendCommand "PGCMD_ANTENNA";
          GpsSendCommand "PMTK_SET_NMEA_UPDATE_1HZ";
          GpsSendCommand "PMTK_SET_NMEA_OUTPUT_RMCGGA";
          GpsBegin 9600; SerialBegin 115200; Millis (wrap32 (clock d 0))])%list /\
    returned ((static_init ;; setup) d boot) = fona_begin d 9 /\
    (fona_begin d 9 = false ->
     tones rest = [100; 100; 100; 100] /\
     forallb not_modem rest = true /\
     forallb (fun e => match e with GpsNewNMEA _ => false | _ => true end) rest
       = true).
Proof.
  tcompute. destruct (fona_begin d 9).
  - eexists [_; _; _; _; _; _; _; _; _; _; _; _; _].
    split; [reflexivity|]. split; [reflexivity|discriminate].
  - eexists [_; _; _; _; _; _; _; _; _; _; _; _; _; _; _; _].
    split; [reflexivity|]. split; [reflexivity|]. intros _. repeat split.
Qed.

(** X14: [tracker.ino] brings the modem up in [setup()], before the first pass of
    [loop()] and whether or not there is a fix: in a run of any length the
    log starts with the static initialiser and the GPS and buzzer set-up,
    followed at once by [fonaSS.begin(4800)] and [fona.begin]; and when
    [fona.begin] fails the run stops there for good, after four error beeps
    of 100 Hz, without a single pass of [loop()]. *)
Theorem tracker_modem_up_before_first_pass d (n : nat) :
  let ok := fona_begin d 9 in
  exists rest,
    log (world_of (run n d boot)) =
      (rest ++
       [FonaBegin ok; FonaSSBegin 4800; PinModeOutput BUZZ_PIN;
        UseInterrupt true; GpsSendCommand "PGCMD_ANTENNA";
        GpsSendCommand "PMTK_SET_NMEA_UPDATE_1HZ";
        GpsSendCommand "PMTK_SET_NMEA_OUTPUT_RMCGGA";
        GpsBegin 9600; SerialBegin 115200; Millis (wrap32 (clock d 0))])%list /\
    (ok = false ->
     returned (run n d boot) = false /\
     tones rest = [100; 100; 100; 100] /\
     forallb not_modem rest = true /\
     forallb (fun e => match e with GpsNewNMEA _ => false | _ => true end) rest
       = true).
Proof.
  intros ok. subst ok.
  assert (Hrun : run n d boot =
            match (static_init ;; setup) d boot with
            | Done _ w => ticks n d w
            | Hang w => Hang w
            end).
  { unfold run, bind. destruct (static_init d boot) as [[] ?|?]; reflexivity. }
  rewrite Hrun. clear Hrun.
  destruct (tracker_startup d) as (rest & Hw & Hret & Hfail).
  destruct ((static_init ;; setup) d boot) as [[] w0|w0];
    cbn [world_of returned] in *.
  - destruct (tracker_ticks_extend d n w0) as [_ (l & Hl & _)].
    unfold extends in Hl. exists (l ++ rest)%list. split.
    + rewrite Hl, Hw. cbn [log]. rewrite <- app_assoc. reflexivity.
    + intros E. rewrite E in Hret. discriminate Hret.
  - exists rest. split; [rewrite Hw; reflexivity|].
    intros E. split; [reflexivity|apply Hfail, E].
Qed.

Lemma tracker_wrap_guard_no_modem d :
  respects d wrap_guard
           (both returns (quiet not_modem tracker_no_observation)).
Proof. topen. apply respects_both; [returns_steps|quiet_steps]. Qed.

Lemma tracker_record_coordinates_no_modem d :
  respects d record_coordinates
           (both returns (quiet not_modem tracker_no_observation)).
Proof. topen. apply respects_both; [returns_steps|quiet_steps]. Qed.

Lemma tracker_after_count_extends d fix_ coords :
  respects d (periodic_report fix_ coords ;; alarm)
           (quiet any_event tracker_no_observation).
Proof. topen. quiet_steps. Qed.

Lemma tracker_poll_asks_count d fix_ coords (w : World Globals) :
  exists l c,
    log (world_of (poll_commands fix_ coords d w)) =
      (l ++ FonaGetNumSMS c :: FonaSSBegin 4800 :: log w)%list /\
    returned (poll_commands fix_ coords d w) = true.
Proof.
  unfold poll_commands. texec. destruct (_ >? _); texec.
  - destruct (fona_readSMS d _) as [text|]; texec.
    + destruct (fona_getSMSSender d _) as [phone|]; texec.
      * rewrite tracker_command_replies. cbn [world_of log returned].
        eexists [_; _; _; _; _], _. split; reflexivity.
      * eexists [_; _; _; _], _. split; reflexivity.
    + eexists [_; _; _], _. split; reflexivity.
  - eexists [_], _. split; reflexivity.
Qed.

(** X15: [tracker.ino] has no poll timer and does not wait for a fix: every pass
    of [loop()] that gets past the sentence reopens the modem's serial port
    and asks the modem for its message count, whatever the clock and the GPS
    say; nothing is said to the modem in that pass before. *)
Theorem tracker_polls_on_every_pass d (w : World Globals) :
  exists before after c,
    log (world_of (loop_rest d w)) =
      (after ++ FonaGetNumSMS c :: FonaSSBegin 4800 :: before ++ log w)%list /\
    forallb not_modem before = true.
Proof.
  assert (Hrest : loop_rest d w =
    match wrap_guard d w with
    | Done _ w1 =>
        match record_coordinates d w1 with
        | Done fc w2 =>
            match poll_commands (fst fc) (snd fc) d w2 with
            | Done _ w3 =>
                (periodic_report (fst fc) (snd fc) ;; alarm) d w3
            | Hang w3 => Hang w3
            end
        | Hang w2 => Hang w2
        end
    | Hang w1 => Hang w1
    end).
  { unfold loop_rest, bind. destruct (wrap_guard d w) as [[] w1|?]; [|reflexivity].
    destruct (record_coordinates d w1) as [fc w2|?]; reflexivity. }
  rewrite Hrest. clear Hrest.
  destruct (tracker_wrap_guard_no_modem d w) as [Hr1 [_ (l1 & Hl1 & Hok1)]].
  unfold returns in Hr1.
  destruct (wrap_guard d w) as [[] w1|w1]; [clear Hr1|discriminate Hr1].
  cbn [world_of] in *.
  destruct (tracker_record_coordinates_no_modem d w1)
    as [Hr2 [_ (l2 & Hl2 & Hok2)]].
  unfold returns in Hr2.
  destruct (record_coordinates d w1) as [fc w2|w2]; [clear Hr2|discriminate Hr2].
  cbn [world_of] in *.
  destruct (tracker_poll_asks_count d (fst fc) (snd fc) w2) as (l3 & c & Hl3 & Hr3).
  destruct (poll_commands (fst fc) (snd fc) d w2) as [[] w3|w3];
    [clear Hr3|discriminate Hr3].
  cbn [world_of] in *.
  destruct (tracker_after_count_extends d (fst fc) (snd fc) w3)
    as [_ (l4 & Hl4 & _)].
  unfold extends in *.
  exists (l2 ++ l1)%list, (l4 ++ l3)%list, c. split.
  - rewrite Hl4, Hl3, Hl2, Hl1, <- !app_assoc. reflexivity.
  - rewrite forallb_app, Hok1, Hok2. reflexivity.
Qed.

(** ** The sentence, the baseline and the timer in [tracker.ino] *)

(** X16: [tracker.ino] abandons the pass in the same way: with the interrupt on,
    a sentence pending and the parser rejecting it, [loop()] returns after
    reopening the GPS port, asking for the sentence and parsing it, with
    every variable and the GPS data as before; the modem is not polled, the
    report is not checked and the alarm does not sound in that pass. *)
Theorem tracker_failed_parse_abandons_pass d (w : World Globals) :
  usingInterrupt (globals w) = true ->
  (forall i, gps_newNMEAreceived d i = true) ->
  (forall i, gps_parse d i = None) ->
  loop d w =
  Done tt (mkWorld (globals w) (GPS w)
             (GpsParse false :: GpsNewNMEA true :: GpsBegin 9600 :: log w)).
Proof.
  intros Hon Hnew Hparse. unfold loop, hand_query, receive_sentence. texec.
  rewrite Hon. texec. rewrite Hnew. texec. rewrite Hparse. texec. reflexivity.
Qed.

(** X17: The baseline of [tracker.ino] moves in the same way: when a poll is told
    a count [c] above the baseline (the modem reporting [c] each time it is
    asked), the baseline becomes [c], exactly one message is fetched and at
    most one reply is sent; a poll that starts from baseline [c] and is told
    [c] fetches and sends nothing. *)
Theorem tracker_poll_moves_baseline_to_count
    d (w : World Globals) (fix_ : bool) (coordinates : string) (c : Z) :
  (forall i, wrap_int8 (fona_getNumSMS d i) = c) ->
  let r := poll_commands fix_ coordinates d w in
  returned r = true /\
  (c > startSMS (globals w) ->
   startSMS (globals (world_of r)) = c /\
   List.length (sms_read (log (world_of r))) = S (List.length (sms_read (log w))) /\
   (List.length (sms_sent (log (world_of r)))
      <= S (List.length (sms_sent (log w))))%nat) /\
  (c <= startSMS (globals w) ->
   globals (world_of r) = globals w /\
   sms_read (log (world_of r)) = sms_read (log w) /\
   sms_sent (log (world_of r)) = sms_sent (log w)).
Proof.
  intros Hcount r. subst r. unfold poll_commands. texec. rewrite Hcount.
  destruct (gtb_cases c (startSMS (globals w))) as [[Hc E]|[Hc E]];
    rewrite E; texec.
  - rewrite Hcount.
    destruct (fona_readSMS d _) as [text|]; texec.
    + destruct (fona_getSMSSender d _) as [phone|]; texec.
      * rewrite tracker_command_replies. cbn [returned world_of globals log].
        split; [reflexivity|]. split; [|intros; lia]. intros _.
        split; [destruct (_ && _)%bool; reflexivity|].
        cbn [sms_read sms_sent List.length]. split; [reflexivity|lia].
      * split; [reflexivity|]. split; [|intros; lia]. intros _.
        cbn [sms_read sms_sent List.length]. repeat split. lia.
    + split; [reflexivity|]. split; [|intros; lia]. intros _.
      cbn [sms_read sms_sent List.length]. repeat split. lia.
  - split; [reflexivity|]. split; [intros; lia|]. intros _.
    cbn [sms_read sms_sent]. repeat split.
Qed.

(** X18: The report timer of [tracker.ino]: with the clock reading [now], a timer
    ahead of the clock is set to [now] by the wrap guard; the report is not
    due while the elapsed time is at most 300000 ms (so not right after the
    wrap guard has reset the timer, and not at exactly 300000 ms); beyond
    that the timer becomes [now] and one message goes to [sendto], the
    coordinates with a fix and "UPDATE: NO GPS FIX" without. *)
Theorem tracker_report_timer
    d (w : World Globals) (fix_ : bool) (coordinates : string) (now : Z) :
  (forall i, wrap32 (clock d i) = now) ->
  (timer (globals w) > now ->
   returned (wrap_guard d w) = true /\
   timer (globals (world_of (wrap_guard d w))) = now /\
   sms_sent (log (world_of
     ((wrap_guard ;; periodic_report fix_ coordinates) d w))) = sms_sent (log w)) /\
  (sub32 now (timer (globals w)) <= 300000 ->
   periodic_report fix_ coordinates d w =
     Done tt (mkWorld (globals w) (GPS w) (Millis now :: log w))) /\
  (sub32 now (timer (globals w)) > 300000 ->
   periodic_report fix_ coordinates d w =
     Done tt (mkWorld (set_timer now (globals w)) (GPS w)
       (FonaSendSMS sendto
          (if fix_ then coordinates else "UPDATE: NO GPS FIX")
          (fona_sendSMS d (S (S (List.length (log w)))))
        :: Millis now :: Millis now :: log w))).
Proof.
  intros Hclock. split; [|split].
  - intros Hwrap. unfold wrap_guard, periodic_report. texec.
    rewrite !Hclock, (gtb_true _ _ Hwrap). texec. rewrite !Hclock.
    rewrite sub32_same. cbn [Z.gtb Z.compare]. texec.
    repeat split.
  - intros Hd. unfold periodic_report. texec. rewrite !Hclock.
    rewrite (gtb_false _ _ Hd). reflexivity.
  - intros Hd. unfold periodic_report. texec. rewrite !Hclock.
    rewrite (gtb_true _ _ Hd). texec. rewrite !Hclock.
    destruct fix_; texec; reflexivity.
Qed.

(** X19: The alarm of [tracker.ino] is the same burst at 440 Hz. *)
Theorem tracker_alarm_burst d (w : World Globals) :
  exists l,
    alarm d w = Done tt (mkWorld (globals w) (GPS w) (l ++ log w)%list) /\
    if beeping (globals w)
    then total_delay l = 2340 /\ tones l = [440; 440; 440; 440] /\
         buzzer_off l = true /\ forallb not_modem l = true
    else l = [].
Proof.
  destruct w as [g gps lg]. unfold alarm. texec. destruct (beeping g); texec.
  - eexists (_ :: _ :: _ :: _ :: _ :: _ :: _ :: _ :: _
             :: _ :: _ :: _ :: _ :: _ :: _ :: _ :: _ :: []).
    split; [reflexivity|]. repeat split.
  - exists []. split; reflexivity.
Qed.

End TrackerFacts.

(** * The properties at concrete inputs *)

(** C9: [replybuffer] is declared with 161 bytes while [loop] asks
    [fona.readSMS] for up to 250 characters.  Run on a stored message of 200
    characters: the read is logged with the limit 250, the driver stores 201
    bytes, more than the buffer has, and the sketch goes on with all 200
    characters as the buffer's content.  The limit passed exceeds the size of
    the buffer it is passed with. *)
Theorem readSMS_limit_exceeds_replybuffer :
  let d := devices_at 400000 3 (Some long_text) (Some "+15550100") in
  let w := world_up false 2 0 0 true in
  let w' := world_of (Part000.poll_commands true "" d w) in
  sms_read (log w') = [Some long_text] /\
  In (FonaReadSMS 3 250 (Some long_text)) (log w') /\
  250 > Part000.replybuffer_size /\
  readSMS_bytes 250 long_text = 201 /\
  readSMS_bytes 250 long_text > Part000.replybuffer_size /\
  strlen (Part000.replybuffer (globals w')) = 200.
Proof.
  vm_compute. repeat split; try reflexivity.
  do 4 right. left. reflexivity.
Qed.

(** A stored text is read back up to its first NUL: "Gps", a NUL and "x" is
    taken for the command "gps". *)
Example text_is_read_up_to_nul :
  let text := String "G" (String "p" (String "s" (String zero "x"))) in
  let d := devices_at 400000 3 (Some text) (Some "+15550100") in
  let w := world_up false 2 0 0 false in
  sms_sent (log (world_of (Part000.poll_commands false "" d w))) =
    [("+15550100", "ERROR: NO GPS FIX")].
Proof. vm_compute. reflexivity. Qed.

(** C1 fails as stated: with the report timer at 0 and the clock at exactly
    300000 ms the elapsed time equals the period, and the report is not due:
    the timer stays at 0 and nothing is sent. *)
Lemma report_not_due_at_exactly_the_period :
  let w := world_up false 0 0 300000 true in
  let d := devices_at 300000 0 None None in
  let r := Part000.periodic_report true "here" d w in
  sub32 300000 (Part000.gpsTimer (globals w)) = 300000 /\
  Part000.gpsTimer (globals (world_of r)) = 0 /\
  sms_sent (log (world_of r)) = [] /\
  events (world_of r) = [Millis 300000].
Proof. vm_compute. repeat split; reflexivity. Qed.

Lemma report_due_when_elapsed_exceeds_period_witness :
  let d := devices_at 300001 0 None None in
  let w := world_up false 0 0 300001 true in
  (forall i, wrap32 (clock d i) = 300001) /\
  Part000.gpsTimer (globals (world_of (Part000.periodic_report true "here" d w)))
    = 300001.
Proof.
  intros d w.
  assert (Hclock : forall i, wrap32 (clock d i) = 300001)
    by (intros i; reflexivity).
  split; [exact Hclock|].
  destruct (report_due_when_elapsed_exceeds_period d w true "here" 300001 Hclock)
    as (_ & _ & Hdue).
  apply Hdue. reflexivity.
Defined.

Lemma no_modem_before_first_fix_witness :
  let d := devices_at 1000 0 None None in
  forallb not_modem (log (world_of (Part000.run 2 d Part000.boot))) = true.
Proof.
  intros d.
  apply (no_modem_before_first_fix d 2).
  intros k Hk. destruct k as [|[|[|k]]]; [reflexivity|reflexivity|reflexivity|lia].
Defined.

Lemma timers_survive_clock_wraparound_witness :
  let d := devices_at 5 0 None None in
  let w := world_up false 0 4000000000 0 true in
  let d' := devices_tracking 10000 in
  Part000.gpsTimer (globals (world_of (Part000.loop_rest d w))) = 5 /\
  fires ReportTimer (log (world_of (Part000.run 12 d' Part000.boot))) =
    [217; 181; 145; 109; 73; 37]%nat /\
  spaced d' 300000
    (fires ReportTimer (log (world_of (Part000.run 12 d' Part000.boot)))).
Proof.
  intros d w d'.
  assert (Hclock : forall i, wrap32 (clock d i) = 5) by (intros i; reflexivity).
  assert (Hwrap : lastFired ReportTimer (globals w) > 5) by reflexivity.
  assert (Hmono : monotone d').
  { intros i j Hij. cbn. nia. }
  destruct (timers_survive_clock_wraparound ReportTimer d w 5 d' 12
              Hclock Hwrap Hmono) as [[Hat _] Hsp].
  split; [exact Hat|]. split; [vm_compute; reflexivity|exact Hsp].
Defined.




(** C5 fails as stated: alarm on, both timers long overdue, a sentence
    pending that the parser rejects.  The pass ends at the rejected parse: no
    clock read, no report, no poll, no tone.  The same pass with no sentence
    pending runs all of them. *)
Lemma failed_parse_skips_remaining_steps :
  let w := world_up true 0 0 0 true in
  Part000.beeping (globals w) = true /\
  sub32 400000 (Part000.gpsTimer (globals w)) > 300000 /\
  sub32 400000 (Part000.fonaTimer (globals w)) > 2000 /\
  events (world_of (Part000.loop (devices_sentence 400000 None) w)) =
    [GpsListen; GpsNewNMEA true; GpsParse false] /\
  existsb (fun e => match e with Tone _ _ => true | _ => false end)
    (log (world_of (Part000.loop (devices_at 400000 0 None None) w))) = true /\
  sms_sent (log (world_of (Part000.loop (devices_at 400000 0 None None) w))) =
    [(sendto, "0.0000, 0.0000, 0.00")].
Proof. vm_compute. repeat split; reflexivity. Qed.

Lemma failed_parse_abandons_pass_witness :
  let d := devices_sentence 400000 None in
  let w := world_up true 0 0 0 true in
  returned (Part000.loop d w) = true /\
  globals (world_of (Part000.loop d w)) = globals w.
Proof.
  intros d w.
  assert (Hnew : forall i, gps_newNMEAreceived d i = true)
    by (intros i; reflexivity).
  assert (Hparse : forall i, gps_parse d i = None) by (intros i; reflexivity).
  destruct (failed_parse_abandons_pass d w Hnew) as [Hfail _].
  destruct (Hfail Hparse) as (Hret & Hg & _).
  split; [exact Hret|exact Hg].
Defined.

Lemma gps_query_without_fix_replies_error_witness :
  let d := devices_at 400000 3 (Some "GPS") (Some "+15550100") in
  let w := world_up false 2 0 0 false in
  sms_sent (log (world_of (Part000.poll_commands false "" d w))) =
    [("+15550100", "ERROR: NO GPS FIX")].
Proof.
  intros d w.
  assert (Hdue : sub32 (wrap32 (clock d (List.length (log w))))
                   (Part000.fonaTimer (globals w)) > 2000) by reflexivity.
  assert (Hnew : forall i, wrap_int8 (fona_getNumSMS d i)
                           > Part000.startSMS (globals w))
    by (intros i; reflexivity).
  assert (Hread : forall i, fona_readSMS d i = Some "GPS")
    by (intros i; reflexivity).
  assert (Hsender : forall i, fona_getSMSSender d i = Some "+15550100")
    by (intros i; reflexivity).
  assert (Hgps : toLowerCase "GPS" = "gps") by reflexivity.
  destruct (gps_query_without_fix_replies_error d w "" "GPS" "+15550100"
              Hdue Hnew Hread Hsender Hgps) as [_ Hsent].
  exact Hsent.
Defined.

Lemma unrecognized_payload_replies_invalid_command_witness :
  let d := devices_at 400000 3 (Some "foo") (Some "+15550100") in
  let w := world_up true 2 0 0 false in
  exists ok : bool,
    Part000.command false "" "+15550100" (toLowerCase "foo") d w =
    Done tt (mkWorld (globals w) (GPS w)
      (SerialPrint (if ok then "SMS sent" else "SMS failed")
       :: FonaSendSMS "+15550100" "INVALID COMMAND" ok :: log w)).
Proof.
  intros d w.
  apply (unrecognized_payload_replies_invalid_command "foo" "+15550100" ""
           false d w); vm_compute; discriminate.
Defined.

(** ** The further properties at concrete inputs *)

Lemma failed_bringup_is_final_witness :
  let d := devices_no_modem 1000 in
  Part000.fonaSetup (globals (world_of (Part000.run 2 d Part000.boot))) = false /\
  returned (Part000.run 2 d Part000.boot) = false /\
  modem_calls (log (world_of (Part000.run 2 d Part000.boot))) =
    [FonaBegin false; FonaSSBegin 9600].
Proof.
  intros d.
  assert (Hfail : forall i, fona_begin d i = false) by (intros i; reflexivity).
  pose proof (failed_bringup_is_final d 2 Hfail) as [Hs Hm].
  assert (Hr : returned (Part000.run 2 d Part000.boot) = false)
    by (vm_compute; reflexivity).
  rewrite Hr in Hm. split; [exact Hs|]. split; [exact Hr|exact Hm].
Defined.

Lemma wrap_guard_leaves_timers_not_ahead_witness :
  let d := devices_at 5000 0 None None in
  let w := world_up false 0 5000 4000 true in
  globals (world_of (Part000.wrap_guard d w)) = globals w.
Proof.
  intros d w.
  assert (Hclock : forall i, wrap32 (clock d i) = 5000)
    by (intros i; reflexivity).
  assert (Hg : Part000.gpsTimer (globals w) <= 5000) by (vm_compute; discriminate).
  assert (Hf : Part000.fonaTimer (globals w) <= 5000) by (vm_compute; discriminate).
  rewrite (wrap_guard_leaves_timers_not_ahead d w 5000 Hclock Hg Hf).
  reflexivity.
Defined.

Lemma timer_step_due_iff_elapsed_exceeds_period_witness :
  let d := devices_at 2001 0 None None in
  let w := world_up false 0 0 0 true in
  (sub32 2000 (lastFired PollTimer (globals w)) <= period PollTimer) /\
  lastFired PollTimer
    (globals (world_of (step_of PollTimer true "" d w))) = 2001.
Proof.
  intros d w. split; [vm_compute; discriminate|].
  assert (Hclock : forall i, wrap32 (clock d i) = 2001)
    by (intros i; reflexivity).
  destruct (timer_step_due_iff_elapsed_exceeds_period PollTimer d w true ""
              2001 Hclock) as (_ & _ & Hdue).
  apply Hdue. reflexivity.
Defined.

Lemma poll_ignores_count_not_above_baseline_witness :
  let d := devices_at 400000 (-1) (Some "gps") (Some "+15550100") in
  let w := world_up false 2 0 0 true in
  sms_sent (log (world_of (Part000.poll_commands true "" d w))) = [] /\
  Part000.startSMS (globals (world_of (Part000.poll_commands true "" d w))) = 2.
Proof.
  intros d w.
  assert (Hc : forall i, wrap_int8 (fona_getNumSMS d i)
                         <= Part000.startSMS (globals w))
    by (intros i; vm_compute; discriminate).
  destruct (poll_ignores_count_not_above_baseline d w true "" Hc)
    as (_ & Hbase & _ & _ & Hsent).
  split; [exact Hsent|exact Hbase].
Defined.

Lemma unreadable_message_is_dropped_witness :
  let d := devices_unreadable 400000 3 in
  let d' := devices_at 400000 3 (Some "beep") None in
  let w := world_up false 2 0 0 true in
  (Part000.startSMS (globals (world_of (Part000.poll_commands true "" d w))) = 3 /\
   sms_sent (log (world_of (Part000.poll_commands true "" d w))) = []) /\
  (sms_read (log (world_of (Part000.poll_commands true "" d' w))) = [Some "beep"] /\
   Part000.startSMS (globals (world_of (Part000.poll_commands true "" d' w))) = 3 /\
   Part000.beeping (globals (world_of (Part000.poll_commands true "" d' w))) = false /\
   sms_sent (log (world_of (Part000.poll_commands true "" d' w))) = []).
Proof.
  intros d d' w.
  assert (Hfit : texts_fit_replybuffer d).
  { intros i msg E. discriminate E. }
  assert (Hfit' : texts_fit_replybuffer d').
  { intros i msg E. injection E as <-. vm_compute. discriminate. }
  assert (Hdue : sub32 (wrap32 (clock d (List.length (log w))))
                   (Part000.fonaTimer (globals w)) > 2000) by reflexivity.
  assert (Hdue' : sub32 (wrap32 (clock d' (List.length (log w))))
                    (Part000.fonaTimer (globals w)) > 2000) by reflexivity.
  assert (Hcount : forall i, wrap_int8 (fona_getNumSMS d i) = 3)
    by (intros i; reflexivity).
  assert (Hcount' : forall i, wrap_int8 (fona_getNumSMS d' i) = 3)
    by (intros i; reflexivity).
  assert (Hnew : 3 > Part000.startSMS (globals w)) by reflexivity.
  assert (Hfail : (forall i, fona_readSMS d i = None) \/
                  (forall i, fona_getSMSSender d i = None))
    by (left; intros i; reflexivity).
  assert (Hfail' : (forall i, fona_readSMS d' i = None) \/
                   (forall i, fona_getSMSSender d' i = None))
    by (right; intros i; reflexivity).
  destruct (unreadable_message_is_dropped d w true "" 3
              Hfit Hdue Hcount Hnew Hfail) as (_ & Hbase & _ & Hsent).
  destruct (unreadable_message_is_dropped d' w true "" 3
              Hfit' Hdue' Hcount' Hnew Hfail') as (_ & Hbase' & Hbeep' & Hsent').
  split; [split; [exact Hbase|exact Hsent]|].
  split; [vm_compute; reflexivity|].
  split; [exact Hbase'|]. split; [exact Hbeep'|exact Hsent'].
Defined.

Lemma poll_fetches_only_the_newest_witness :
  let d := devices_at 400000 5 (Some "gps") (Some "+15550100") in
  let w := world_up false 2 0 0 true in
  exists l,
    extends w (world_of (Part000.poll_commands true "" d w)) l /\
    read_indices l = [wrap_uint8 5] /\
    Part000.startSMS (globals (world_of (Part000.poll_commands true "" d w))) = 5.
Proof.
  intros d w.
  assert (Hdue : sub32 (wrap32 (clock d (List.length (log w))))
                   (Part000.fonaTimer (globals w)) > 2000) by reflexivity.
  assert (Hcount : forall i, wrap_int8 (fona_getNumSMS d i) = 5)
    by (intros i; reflexivity).
  assert (Hnew : 5 > Part000.startSMS (globals w)) by reflexivity.
  assert (Hfit : texts_fit_replybuffer d).
  { intros i msg E. injection E as <-. vm_compute. discriminate. }
  exact (poll_fetches_only_the_newest d w true "" 5 Hfit Hdue Hcount Hnew).
Defined.

Lemma alarm_flag_moves_only_on_a_message_witness :
  let d := devices_at 400000 2 None None in
  let w := world_up true 2 0 0 true in
  Part000.beeping (globals (world_of (Part000.loop d w))) = true.
Proof.
  intros d w.
  assert (Hread : sms_read (log (world_of (Part000.loop d w))) = sms_read (log w))
    by (vm_compute; reflexivity).
  exact (alarm_flag_moves_only_on_a_message d w Hread).
Defined.

Lemma modem_calls_follow_listen_witness :
  let d := devices_at 400000 3 (Some "gps") (Some "+15550100") in
  let w := world_up false 2 0 0 true in
  exists l,
    extends w (world_of (Part000.loop d w)) l /\
    selects_gps_first l /\ listens_first l.
Proof.
  intros d w.
  assert (Hup : Part000.fonaSetup (globals w) = true) by reflexivity.
  destruct (modem_calls_follow_listen d w) as (l & Hl & Hgps & Hfirst).
  exists l. split; [exact Hl|]. split; [exact Hgps|exact (Hfirst Hup)].
Defined.

Lemma tracker_reads_stay_in_replybuffer_witness :
  let d := devices_arriving long_text in
  readSMS_bytes 250 long_text <= Tracker.replybuffer_size.
Proof.
  intros d.
  assert (Hin : In (FonaReadSMS 3 250 (Some long_text))
                   (log (world_of (Tracker.run 1 d Tracker.boot)))).
  { vm_compute. do 3 right. left. reflexivity. }
  apply (tracker_reads_stay_in_replybuffer d 1 3 250 long_text Hin).
Defined.

Lemma tracker_failed_parse_abandons_pass_witness :
  let d := devices_sentence 400000 None in
  let w := tracker_world true 0 0 true in
  events (world_of (Tracker.loop d w)) =
    [GpsBegin 9600; GpsNewNMEA true; GpsParse false].
Proof.
  intros d w.
  assert (Hon : Tracker.usingInterrupt (globals w) = true) by reflexivity.
  assert (Hnew : forall i, gps_newNMEAreceived d i = true)
    by (intros i; reflexivity).
  assert (Hparse : forall i, gps_parse d i = None) by (intros i; reflexivity).
  rewrite (tracker_failed_parse_abandons_pass d w Hon Hnew Hparse).
  reflexivity.
Defined.

Lemma tracker_poll_moves_baseline_to_count_witness :
  let d := devices_at 400000 3 (Some "foo") (Some "+15550100") in
  let w := tracker_world false 2 0 false in
  Tracker.startSMS (globals (world_of (Tracker.poll_commands false "" d w))) = 3.
Proof.
  intros d w.
  assert (Hcount : forall i, wrap_int8 (fona_getNumSMS d i) = 3)
    by (intros i; reflexivity).
  destruct (tracker_poll_moves_baseline_to_count d w false "" 3 Hcount)
    as (_ & Hnew & _).
  apply Hnew. reflexivity.
Defined.

Lemma tracker_report_timer_witness :
  let d := devices_at 300001 0 None None in
  let w := tracker_world false 0 0 false in
  sms_sent (log (world_of (Tracker.periodic_report false "" d w))) =
    [(sendto, "UPDATE: NO GPS FIX")].
Proof.
  intros d w.
  assert (Hclock : forall i, wrap32 (clock d i) = 300001)
    by (intros i; reflexivity).
  destruct (tracker_report_timer d w false "" 300001 Hclock) as (_ & _ & Hdue).
  rewrite Hdue by reflexivity. reflexivity.
Defined.
